(** * The Twitch controller of the overlays server

    A shallow embedding of [src/lib/twitch.ts]: the EventSub reconciliation
    run at start-up ([setupEventSub]), the chat handler registered by
    [setupChatBot], and the channel-point redemption dispatcher
    ([handleEvent], [redeem] and the three reward actions).

    The controller is effectful: it fetches from the Twitch API, writes to
    the console and calls the server's collaborators (OBS, Snap camera,
    giveaways, the websocket hub). Every [async] function is embedded as a
    computation over a [World] that holds the remote subscription registry,
    the trace of the effects performed so far, and the behaviour of the
    outside (how the network answers, which collaborator calls throw).  A
    computation either returns a value or throws, and in both cases hands
    back the world it reached. *)

From Stdlib Require Import Ascii String List Bool Arith ZArith Lia.
Import ListNotations.
Open Scope string_scope.
Open Scope list_scope.

(** ** Data model *)

(** [TwitchEventType]: the union of string literals of the source. *)
Inductive TwitchEventType : Type :=
| channel_follow
| channel_subscribe
| channel_channel_points_custom_reward_redemption_add
| channel_update
| channel_cheer
| channel_subscription_gift
| channel_raid
| channel_hype_train_begin
| channel_hype_train_progress
| channel_hype_train_end.

(** The string each literal stands for; subscriptions listed by the
    platform carry their type as a plain string. *)
Definition type_name (t : TwitchEventType) : string :=
  match t with
  | channel_follow => "channel.follow"
  | channel_subscribe => "channel.subscribe"
  | channel_channel_points_custom_reward_redemption_add =>
      "channel.channel_points_custom_reward_redemption.add"
  | channel_update => "channel.update"
  | channel_cheer => "channel.cheer"
  | channel_subscription_gift => "channel.subscription.gift"
  | channel_raid => "channel.raid"
  | channel_hype_train_begin => "channel.hype_train.begin"
  | channel_hype_train_progress => "channel.hype_train.progress"
  | channel_hype_train_end => "channel.hype_train.end"
  end.

(** The [status] field of [TwitchEventSubscription]. *)
Inductive SubscriptionStatus : Type :=
| enabled
| webhook_callback_verification_pending
| webhook_callback_verification_failed
| notification_failures_exceeded
| authorization_revoked
| user_removed.

(** A condition is a JSON object with string values, such as
    [{ broadcaster_user_id: "42" }]. *)
Definition Condition : Type := list (string * string).

Record Transport : Type := mkTransport {
  tr_method : string;
  tr_callback : string
}.

(** [TwitchEventSubscription], as listed by the platform. *)
Record TwitchEventSubscription : Type := mkSubscription {
  sub_id : string;
  sub_status : SubscriptionStatus;
  sub_type : string;
  sub_version : string;
  sub_condition : Condition;
  sub_created_at : string;
  sub_transport : Transport;
  sub_cost : Z
}.

(** [TwitchChatEvent] *)
Record TwitchChatEvent : Type := mkChatEvent {
  chat_channel : string;
  chat_user : string;
  chat_message : string;
  chat_broadcaster : bool;
  chat_moderator : bool
}.

(** The part of [PrivateMessage] the chat handler reads: [msg.userInfo]. *)
Record PrivateMessage : Type := mkPrivateMessage {
  isBroadcaster : bool;
  isMod : bool
}.

(** [TwitchChannelRedemptionEvent]: the subscription envelope and the
    [event] payload. *)
Record RedemptionReward : Type := mkRedemptionReward {
  reward_id : string;
  reward_title : string;
  reward_prompt : string;
  reward_cost : Z
}.

Record Redemption : Type := mkRedemption {
  ev_broadcaster_user_id : string;
  ev_broadcaster_user_login : string;
  ev_broadcaster_user_name : string;
  ev_id : string;
  ev_user_id : string;
  ev_user_login : string;
  ev_user_name : string;
  ev_user_input : string;
  ev_status : string;
  ev_redeemed_at : string;
  ev_reward : RedemptionReward
}.

Record TwitchEventBase : Type := mkEventBase {
  base_key : string;
  subscription_id : string;
  subscription_status : string;
  subscription_type : TwitchEventType;
  subscription_version : string;
  subscription_created_at : string
}.

Record TwitchChannelRedemptionEvent : Type := mkRedemptionEvent {
  base : TwitchEventBase;
  event : Redemption
}.

(** [TwitchEvent]: the redemption variant, and the six variants whose
    payload the controller never reads. *)
Inductive TwitchEvent : Type :=
| redemption_event (e : TwitchChannelRedemptionEvent)
| other_event (b : TwitchEventBase).

Definition subscription (e : TwitchEvent) : TwitchEventBase :=
  match e with
  | redemption_event e => base e
  | other_event b => b
  end.

(** Modelled from the spec: the reward definitions of [./rewards], which the
    controller imports ([ShellScriptReward], [SnapFilterReward],
    [getReward]) but which is not among the sources. A reward has an id, one
    of three types, an optional scene, and the field its type needs: a
    script path for [shell], a filter key for [snap-filter]. *)
Record ShellScriptReward : Type := mkShell {
  shell_id : string;
  shell_scene : option string;
  script : option string
}.

Record SnapFilterReward : Type := mkSnap {
  snap_id : string;
  snap_scene : option string;
  key : option string
}.

Record GiveawayEntryReward : Type := mkEntry {
  entry_id : string;
  entry_scene : option string
}.

Inductive Reward : Type :=
| shell (r : ShellScriptReward)
| snap_filter (r : SnapFilterReward)
| giveaway_entry (r : GiveawayEntryReward).

(** [reward.scene] *)
Definition scene (r : Reward) : option string :=
  match r with
  | shell r => shell_scene r
  | snap_filter r => snap_scene r
  | giveaway_entry r => entry_scene r
  end.

(** JavaScript truthiness of an optional string: [undefined] and the empty
    string are falsy. A truthy value is handed on as it is. *)
Definition truthy (o : option string) : option string :=
  match o with
  | Some s => if s =? "" then None else Some s
  | None => None
  end.

(** ** Effects *)

(** The body [createSubscription] posts. *)
Record SubscriptionBody : Type := mkBody {
  body_type : TwitchEventType;
  body_version : string;
  body_condition : Condition;
  body_method : string;
  body_callback : string;
  body_secret : string
}.

(** A bearer token; [None] is JavaScript's [undefined], which is what
    [getToken] yields when the answer has no [access_token]. *)
Definition Token : Type := option string.

(** The four requests the controller sends with [fetch]. *)
Inductive Request : Type :=
| ReqToken (params : list (string * string))
| ReqList (token : Token) (clientId : string)
| ReqDelete (id : string) (token : Token) (clientId : string)
| ReqCreate (token : Token) (clientId : string) (body : SubscriptionBody).

(** Values thrown. *)
Inductive Error : Type :=
| FetchError      (* the promise of fetch (or of json) rejects *)
| TypeError       (* a method is called on undefined *)
| ActionError.    (* a collaborator call throws *)

(** What the controller does to the outside, in the order it does it. *)
Inductive Event : Type :=
| Fetch (r : Request)
| ConsoleError (e : Error)
| Open (script : string)
| ToggleSnapFilter (key : string)
| HandleNewEntry (userName : string)
| SelectWinner
| SwitchScene (scene : string)
| WsEmit (name : string) (payload : TwitchChatEvent).

(** How the platform answers a request. *)
Inductive Answer : Type :=
| NetworkError               (* the fetch promise rejects *)
| HttpError                  (* an error body; nothing changes remotely *)
| Success (payload : string) (* the granted token, or the id of the new
                                subscription *).

Record World : Type := mkWorld {
  registry : list TwitchEventSubscription;
  trace : list Event;
  (* the answer to a request, given what happened before it *)
  network : list Event -> Request -> Answer;
  (* whether a failable collaborator call throws *)
  throws : list Event -> Event -> bool
}.

Inductive Completion (A : Type) : Type :=
| Returned (a : A)
| Thrown (e : Error).
Arguments Returned {A} a.
Arguments Thrown {A} e.

Definition Async (A : Type) : Type := World -> Completion A * World.

Definition ret {A} (a : A) : Async A := fun w => (Returned a, w).

Definition throw {A} (e : Error) : Async A := fun w => (Thrown e, w).

Definition bind {A B} (m : Async A) (k : A -> Async B) : Async B :=
  fun w =>
    match m w with
    | (Returned a, w1) => k a w1
    | (Thrown e, w1) => (Thrown e, w1)
    end.

(** [try { m } catch (error) { h error }] *)
Definition try_catch {A} (m : Async A) (h : Error -> Async A) : Async A :=
  fun w =>
    match m w with
    | (Returned a, w1) => (Returned a, w1)
    | (Thrown e, w1) => h e w1
    end.

Declare Scope async_scope.
Delimit Scope async_scope with async.
Notation "x <- m ;; k" := (bind m (fun x => k))
  (at level 100, m at next level, right associativity) : async_scope.
Notation "m ;; k" := (bind m (fun _ => k))
  (at level 100, right associativity) : async_scope.
Open Scope async_scope.

(** [for (const x of l) { body x }], where [continue] is the body
    returning. *)
Fixpoint for_of {A} (l : list A) (body : A -> Async unit) : Async unit :=
  match l with
  | [] => ret tt
  | x :: rest => body x ;; for_of rest body
  end.

Definition record (e : Event) (w : World) : World :=
  mkWorld (registry w) (trace w ++ [e]) (network w) (throws w).

Definition set_registry (r : list TwitchEventSubscription) (w : World) : World :=
  mkWorld r (trace w) (network w) (throws w).

(** The events a computation adds to the trace of [w]. *)
Definition events_of {A} (m : Async A) (w : World) : list Event :=
  skipn (length (trace w)) (trace (snd (m w))).

(** *** The platform *)

(** The platform is the outside of the controller. Its answers are left
    open ([network]); what is fixed is what a successful request does to
    the registry: a delete removes the subscription with that id, a create
    appends the subscription asked for, a listing returns the registry. *)

(** The subscription the platform registers for an accepted body. A new
    webhook subscription waits for the callback verification. *)
Definition registered (new_id : string) (b : SubscriptionBody)
  : TwitchEventSubscription :=
  mkSubscription new_id webhook_callback_verification_pending
    (type_name (body_type b)) (body_version b) (body_condition b) ""
    (mkTransport (body_method b) (body_callback b)) 0.

(** The effect of a successful request on the registry. *)
Definition served (r : Request) (payload : string)
  (reg : list TwitchEventSubscription) : list TwitchEventSubscription :=
  match r with
  | ReqDelete id _ _ => filter (fun s => negb (sub_id s =? id)) reg
  | ReqCreate _ _ b => reg ++ [registered payload b]
  | _ => reg
  end.

(** The fields the controller reads of a parsed answer. *)
Record Json : Type := mkJson {
  access_token : option string;
  data : option (list TwitchEventSubscription)
}.

Definition answer_body (r : Request) (payload : string)
  (reg : list TwitchEventSubscription) : Json :=
  match r with
  | ReqToken _ => mkJson (Some payload) None
  | ReqList _ _ => mkJson None (Some reg)
  | _ => mkJson None None
  end.

(** [await fetch(...)] followed, where the source has it, by
    [await response.json()]. *)
Definition fetch (r : Request) : Async Json :=
  fun w =>
    let w1 := record (Fetch r) w in
    match network w (trace w) r with
    | NetworkError => (Thrown FetchError, w1)
    | HttpError => (Returned (mkJson None None), w1)
    | Success payload =>
        (Returned (answer_body r payload (registry w)),
         set_registry (served r payload (registry w)) w1)
    end.

(** [console.error(error)] *)
Definition console_error (e : Error) : Async unit :=
  fun w => (Returned tt, record (ConsoleError e) w).

(** A call to a collaborator that may throw. *)
Definition call (e : Event) : Async unit :=
  fun w =>
    let w1 := record e w in
    if throws w (trace w) e then (Thrown ActionError, w1) else (Returned tt, w1).

(** ** The controller *)

(** *** Module-level helpers *)

Definition listSubscriptions (token : Token) (clientId : string)
  : Async (option (list TwitchEventSubscription)) :=
  subscriptions <- fetch (ReqList token clientId) ;;
  ret (data subscriptions).

(** No [try] here: a rejected fetch is thrown to the caller. *)
Definition deleteSubscription (subscription : TwitchEventSubscription)
  (token : Token) (clientId : string) : Async Json :=
  let id := sub_id subscription in
  response <- fetch (ReqDelete id token clientId) ;;
  ret response.

(** Returns the parsed answer, or [undefined] after a caught error. *)
Definition createSubscription (token : Token) (clientId : string)
  (type : TwitchEventType) (condition : Condition) (callback : string)
  (secret : string) : Async (option Json) :=
  let body := mkBody type "1" condition "webhook" callback secret in
  try_catch
    (response <- fetch (ReqCreate token clientId body) ;;
     ret (Some response))
    (fun error => console_error error ;; ret None).

(** [subscriptions.find(p)]; on [undefined] the call is a [TypeError]. *)
Definition array_find {A} (l : option (list A)) (p : A -> bool)
  : Async (option A) :=
  match l with
  | Some l => ret (find p l)
  | None => throw TypeError
  end.

(** *** The class *)

(** The fields read from the process environment. *)
Record TwitchController : Type := mkController {
  clientId : string;
  clientSecret : string;
  webhookSecret : string;
  callback : string;
  userId : string;
  username : string
}.

Definition healthy (s : SubscriptionStatus) : bool :=
  match s with
  | enabled | webhook_callback_verification_pending => true
  | _ => false
  end.

Section Controller.

Variable this : TwitchController.

(** [getReward] of [./rewards]: the lookup of a reward definition by id,
    [undefined] when there is none. *)
Variable getReward : string -> option Reward.

Definition getToken : Async Token :=
  let params :=
    [ ("client_id", clientId this);
      ("client_secret", clientSecret this);
      ("grant_type", "client_credentials") ] in
  response <- fetch (ReqToken params) ;;
  ret (access_token response).

Definition eventTypes : list (TwitchEventType * option Condition) :=
  [ (channel_follow, None);
    (channel_subscribe, None);
    (channel_channel_points_custom_reward_redemption_add, None);
    (channel_update, None);
    (channel_cheer, None);
    (channel_subscription_gift, None);
    (channel_raid, Some [("to_broadcaster_user_id", userId this)]) ].

(** [condition ?? { broadcaster_user_id: this.userId }] *)
Definition resolve (condition : option Condition) : Condition :=
  match condition with
  | Some c => c
  | None => [("broadcaster_user_id", userId this)]
  end.

(** One turn of the loop of [setupEventSub]. *)
Definition setupEventSub_turn (token : Token)
  (subscriptions : option (list TwitchEventSubscription))
  (entry : TwitchEventType * option Condition) : Async unit :=
  let (eventType, condition) := entry in
  existing <-
    array_find subscriptions (fun sub => sub_type sub =? type_name eventType) ;;
  if match existing with
     | Some existing => healthy (sub_status existing)
     | None => false
     end
  then ret tt (* continue *)
  else
    match existing with
    | Some existing =>
        deleteSubscription existing token (clientId this) ;; ret tt
    | None => ret tt
    end ;;
    createSubscription token (clientId this) eventType (resolve condition)
      (callback this) (webhookSecret this) ;;
    ret tt.

Definition setupEventSub : Async unit :=
  token <- getToken ;;
  subscriptions <- listSubscriptions token (clientId this) ;;
  for_of eventTypes (setupEventSub_turn token subscriptions).

(** The handler [setupChatBot] registers with [chatClient.onMessage].
    Neither call is guarded: [selectWinner] of the giveaways collaborator
    and [emit] of the websocket hub may throw, and what either throws
    leaves the handler. *)
Definition onMessage (channel user message : string) (msg : PrivateMessage)
  : Async unit :=
  (if prefix "!winner" message && (user =? username this)
   then call SelectWinner
   else ret tt) ;;
  call (WsEmit "twitch-chat-event"
          (mkChatEvent channel user message (isBroadcaster msg) (isMod msg))).

(** Modelled from the spec: the collaborators behind the reward actions
    and the scene switch ([open], [snap.toggleSnapFilter],
    [giveaways.handleNewEntry], [server.obs.switchScene]), which are not
    among the sources. The spec makes each reward action failable and the
    scene switch best-effort, so each of these calls may throw. *)
Definition redeemShell (reward : ShellScriptReward) : Async unit :=
  match truthy (script reward) with
  | None => ret tt (* if (!script) return *)
  | Some script =>
      try_catch (call (Open script)) (fun error => console_error error)
  end.

Definition redeemSnapFilter (reward : SnapFilterReward) : Async unit :=
  match truthy (key reward) with
  | None => ret tt (* if (!key) return *)
  | Some key =>
      try_catch (call (ToggleSnapFilter key))
        (fun error => console_error error)
  end.

(** No [try] here: a throwing [handleNewEntry] is thrown to the caller. *)
Definition redeemGiveawayEntry (userName : string) : Async unit :=
  call (HandleNewEntry userName).

Definition redeem (payload : TwitchChannelRedemptionEvent) : Async unit :=
  let reward := getReward (reward_id (ev_reward (event payload))) in
  match reward with
  | Some (shell reward) => redeemShell reward
  | Some (snap_filter reward) => redeemSnapFilter reward
  | Some (giveaway_entry _) =>
      redeemGiveawayEntry (ev_user_name (event payload))
  | None => ret tt
  end ;;
  (* if (reward?.scene) *)
  match truthy (match reward with Some r => scene r | None => None end) with
  | Some scene => call (SwitchScene scene)
  | None => ret tt
  end.

(** The cast of the source is unchecked: an event typed as a redemption
    without the redemption payload fails on [payload.event.reward]. *)
Definition handleEvent (event : TwitchEvent) : Async unit :=
  match subscription_type (subscription event) with
  | channel_channel_points_custom_reward_redemption_add =>
      match event with
      | redemption_event e => redeem e
      | other_event _ => throw TypeError
      end
  | _ => ret tt
  end.

End Controller.

(** ** Observations on a run *)

(** A run of [m] from [w]: how it completes, the events it adds, and the
    world it reaches. The behaviour of the outside is not changed by the
    controller. *)
Definition runs {A} (m : Async A) (w : World) (r : Completion A)
  (evs : list Event) (w' : World) : Prop :=
  m w = (r, w') /\ trace w' = trace w ++ evs /\
  network w' = network w /\ throws w' = throws w.

(** The calls that change the registry. *)
Inductive RegistryCall : Type :=
| DeleteCall (id : string)
| CreateCall (type : TwitchEventType) (condition : Condition).

Definition registry_call (e : Event) : option RegistryCall :=
  match e with
  | Fetch (ReqDelete id _ _) => Some (DeleteCall id)
  | Fetch (ReqCreate _ _ b) => Some (CreateCall (body_type b) (body_condition b))
  | _ => None
  end.

Fixpoint registry_calls (evs : list Event) : list RegistryCall :=
  match evs with
  | [] => []
  | e :: rest =>
      match registry_call e with
      | Some c => c :: registry_calls rest
      | None => registry_calls rest
      end
  end.

Definition is_delete (c : RegistryCall) : bool :=
  match c with DeleteCall _ => true | CreateCall _ _ => false end.

Definition is_create (c : RegistryCall) : bool :=
  match c with DeleteCall _ => false | CreateCall _ _ => true end.

(** The calls about type [T]: its creations, and the deletions of [id]. *)
Definition concerns (T : TwitchEventType) (id : string) (c : RegistryCall)
  : bool :=
  match c with
  | DeleteCall i => i =? id
  | CreateCall t _ => type_name t =? type_name T
  end.

(** [sub.type === eventType] *)
Definition has_type (T : TwitchEventType) (sub : TwitchEventSubscription)
  : bool :=
  sub_type sub =? type_name T.

(** The subscription [setupEventSub] takes as the existing one of type [T]:
    the first of that type in the listing. *)
Definition existing_for (T : TwitchEventType)
  (listing : list TwitchEventSubscription) : option TwitchEventSubscription :=
  find (has_type T) listing.

(** The subscriptions of type [T] with a healthy status. *)
Definition healthy_of (T : TwitchEventType)
  (reg : list TwitchEventSubscription) : list TwitchEventSubscription :=
  filter (fun s => has_type T s && healthy (sub_status s)) reg.

(** What one turn of the loop sets out to do, read off the listing. *)
Definition plan (this : TwitchController)
  (listing : list TwitchEventSubscription)
  (entry : TwitchEventType * option Condition) : list RegistryCall :=
  match existing_for (fst entry) listing with
  | Some e =>
      if healthy (sub_status e) then []
      else [DeleteCall (sub_id e);
            CreateCall (fst entry) (resolve this (snd entry))]
  | None => [CreateCall (fst entry) (resolve this (snd entry))]
  end.

(** The platform grants a token request or refuses it, and serves the
    listing: the loop of [setupEventSub] is reached with the registry as
    its listing. *)
Definition listing_served (w : World) : Prop :=
  (forall h params, network w h (ReqToken params) <> NetworkError) /\
  (forall h token cid, exists p, network w h (ReqList token cid) = Success p).

(** No delete request is lost on the network. *)
Definition deletes_delivered (w : World) : Prop :=
  forall h id token cid, network w h (ReqDelete id token cid) <> NetworkError.

(** Every request succeeds, with ids that do not occur in [listing]. *)
Definition serves (listing : list TwitchEventSubscription) (w : World) : Prop :=
  forall h r, exists p,
    network w h r = Success p /\ ~ In p (map sub_id listing).

(** A registry entry is either one of [listing] or carries a new id. *)
Definition known_or_new (listing reg : list TwitchEventSubscription) : Prop :=
  forall s, In s reg -> In s listing \/ ~ In (sub_id s) (map sub_id listing).

(** Every request succeeds, and the ids the platform hands out are new to
    the registry. *)
Definition all_served (w : World) : Prop := serves (registry w) w.

Definition is_emit (e : Event) : bool :=
  match e with WsEmit _ _ => true | _ => false end.

(** ** Example worlds *)

Definition controller : TwitchController :=
  mkController "client" "client-secret" "webhook-secret"
    "https://overlays.example/api/twitch" "42" "streamer".

Definition listed (id : string) (status : SubscriptionStatus)
  (T : TwitchEventType) (condition : Condition) : TwitchEventSubscription :=
  mkSubscription id status (type_name T) "1" condition "2022-03-01T18:00:00Z"
    (mkTransport "webhook" "https://overlays.example/api/twitch") 1.

Definition broadcaster : Condition := [("broadcaster_user_id", "42")].

(** A process that starts: nothing has happened yet. *)
Definition boot (reg : list TwitchEventSubscription)
  (net : list Event -> Request -> Answer) (thr : list Event -> Event -> bool)
  : World :=
  mkWorld reg [] net thr.

(** A platform that accepts every request. *)
Definition obliging : list Event -> Request -> Answer :=
  fun _ _ => Success "fresh".

(** A network that loses every delete request. *)
Definition lossy : list Event -> Request -> Answer :=
  fun _ r =>
    match r with
    | ReqDelete _ _ _ => NetworkError
    | _ => Success "fresh"
    end.

(** A platform that answers every create with an error status. *)
Definition stingy : list Event -> Request -> Answer :=
  fun _ r =>
    match r with
    | ReqCreate _ _ _ => HttpError
    | _ => Success "fresh"
    end.

(** Collaborators that never throw, and collaborators that always do. *)
Definition calm : list Event -> Event -> bool := fun _ _ => false.
Definition broken : list Event -> Event -> bool := fun _ _ => true.

(** One enabled subscription for each desired type. *)
Definition converged : list TwitchEventSubscription :=
  [ listed "1" enabled channel_follow broadcaster;
    listed "2" enabled channel_subscribe broadcaster;
    listed "3" webhook_callback_verification_pending
      channel_channel_points_custom_reward_redemption_add broadcaster;
    listed "4" enabled channel_update broadcaster;
    listed "5" enabled channel_cheer broadcaster;
    listed "6" enabled channel_subscription_gift broadcaster;
    listed "7" enabled channel_raid [("to_broadcaster_user_id", "42")] ].

(** The same, listed after a revoked follow subscription. *)
Definition shadowed : list TwitchEventSubscription :=
  listed "0" authorization_revoked channel_follow broadcaster :: converged.

(** Two raid subscriptions: raids to the channel, enabled, and raids from
    the channel, revoked. *)
Definition raid_to : TwitchEventSubscription :=
  listed "a" enabled channel_raid [("to_broadcaster_user_id", "42")].
Definition raid_from : TwitchEventSubscription :=
  listed "b" authorization_revoked channel_raid
    [("from_broadcaster_user_id", "42")].

(** Two enabled raid subscriptions. *)
Definition raids_both_ways : list TwitchEventSubscription :=
  [ raid_to;
    listed "b" enabled channel_raid [("from_broadcaster_user_id", "42")] ].

(** A single revoked follow subscription. *)
Definition revoked_follow : list TwitchEventSubscription :=
  [ listed "stale" authorization_revoked channel_follow broadcaster ].

(** A reward table: a script, a Snap filter, and two giveaway entries, one
    switching to the scene "cam" and one declared with an empty scene. *)
Definition rewards (id : string) : option Reward :=
  if id =? "hydrate" then
    Some (shell (mkShell "hydrate" None (Some "./scripts/hydrate.sh")))
  else if id =? "googly-eyes" then
    Some (snap_filter (mkSnap "googly-eyes" (Some "cam") (Some "g")))
  else if id =? "giveaway" then
    Some (giveaway_entry (mkEntry "giveaway" (Some "cam")))
  else if id =? "raffle" then
    Some (giveaway_entry (mkEntry "raffle" (Some "")))
  else None.

(** The redemption of reward [id] by the viewer [name]. *)
Definition redemption (id name : string) : TwitchChannelRedemptionEvent :=
  mkRedemptionEvent
    (mkEventBase "redeem" "sub-3" "enabled"
       channel_channel_points_custom_reward_redemption_add "1"
       "2022-03-01T18:00:00Z")
    (mkRedemption "42" "streamer" "Streamer" "redemption-1" "7" "viewer" name
       "" "unfulfilled" "2022-03-01T19:00:00Z"
       (mkRedemptionReward id "a reward" "" 100)).

(** ** Further observations *)

(** The types created and the ids deleted by a list of calls. *)
Fixpoint created (calls : list RegistryCall) : list TwitchEventType :=
  match calls with
  | [] => []
  | CreateCall T _ :: rest => T :: created rest
  | DeleteCall _ :: rest => created rest
  end.

Fixpoint deleted (calls : list RegistryCall) : list string :=
  match calls with
  | [] => []
  | DeleteCall id :: rest => id :: deleted rest
  | CreateCall _ _ :: rest => deleted rest
  end.

(** An event of the reconciliation that is sent with [token] and
    [clientId] in its headers, or that is a line on the console. *)
Definition sent_with (token : Token) (cid : string) (e : Event) : Prop :=
  match e with
  | Fetch (ReqList t c) => t = token /\ c = cid
  | Fetch (ReqDelete _ t c) => t = token /\ c = cid
  | Fetch (ReqCreate t c _) => t = token /\ c = cid
  | ConsoleError _ => True
  | _ => False
  end.

Definition is_fetch (e : Event) : bool :=
  match e with Fetch _ => true | _ => false end.

(** The three reward actions, and the scene switch. *)
Definition is_action (e : Event) : bool :=
  match e with
  | Open _ | ToggleSnapFilter _ | HandleNewEntry _ => true
  | _ => false
  end.

Definition is_scene_switch (e : Event) : bool :=
  match e with SwitchScene _ => true | _ => false end.

(** The action [redeem] selects for a reward: the one of the reward's type,
    or none when the reward is unknown or lacks the field the action
    needs. *)
Definition selected_action (reward : option Reward) (userName : string)
  : list Event :=
  match reward with
  | Some (shell r) =>
      match truthy (script r) with Some s => [Open s] | None => [] end
  | Some (snap_filter r) =>
      match truthy (key r) with Some k => [ToggleSnapFilter k] | None => [] end
  | Some (giveaway_entry _) => [HandleNewEntry userName]
  | None => []
  end.

(** Collaborators whose script launch and filter toggle throw, and whose
    giveaway and scene calls return. *)
Definition flaky_actions : list Event -> Event -> bool :=
  fun _ e =>
    match e with
    | Open _ | ToggleSnapFilter _ => true
    | _ => false
    end.

(** A platform that grants no token: the token endpoint answers with an
    error body, everything else is served. *)
Definition tokenless : list Event -> Request -> Answer :=
  fun _ r =>
    match r with
    | ReqToken _ => HttpError
    | _ => Success "fresh"
    end.

(** A platform whose listing answers with an error body. *)
Definition unlisted : list Event -> Request -> Answer :=
  fun _ r =>
    match r with
    | ReqList _ _ => HttpError
    | _ => Success "fresh"
    end.

(** A follow event, which carries no redemption. *)
Definition follow_event : TwitchEvent :=
  other_event
    (mkEventBase "follow" "sub-1" "enabled" channel_follow "1"
       "2022-03-01T18:00:00Z").

(** ** The body of the token request *)

(** [encodeURIComponent], on the UTF-8 bytes of a string: letters, digits
    and the marks [- _ . ! ~ * ' ( )] stand for themselves, every other
    byte is written as a percent sign and two upper-case hexadecimal
    digits. *)
Definition unreserved (c : ascii) : bool :=
  let n := nat_of_ascii c in
  ((65 <=? n)%nat && (n <=? 90)%nat) || ((97 <=? n)%nat && (n <=? 122)%nat)
  || ((48 <=? n)%nat && (n <=? 57)%nat)
  || existsb (Ascii.eqb c) (list_ascii_of_string "-_.!~*'()").

Definition hex_digit (n : nat) : ascii :=
  nth n (list_ascii_of_string "0123456789ABCDEF") "0"%char.

Fixpoint encodeURIComponent (s : string) : string :=
  match s with
  | EmptyString => EmptyString
  | String c rest =>
      if unreserved c then String c (encodeURIComponent rest)
      else
        String "%"
          (String (hex_digit (nat_of_ascii c / 16))
             (String (hex_digit (nat_of_ascii c mod 16))
                (encodeURIComponent rest)))
  end.

(** The loop of [getToken] over [params]: one "key=value" per property,
    both sides encoded. *)
Definition formBody (params : list (string * string)) : list string :=
  map (fun property =>
         (encodeURIComponent (fst property) ++ "="
          ++ encodeURIComponent (snd property))%string)
    params.

(** [formBody.join("&")] *)
Definition form_body (params : list (string * string)) : string :=
  String.concat "&" (formBody params).

(** The body [getToken] posts. *)
Definition getToken_body (this : TwitchController) : string :=
  form_body [ ("client_id", clientId this);
              ("client_secret", clientSecret this);
              ("grant_type", "client_credentials") ].

(** How often a character occurs in a string. *)
Fixpoint occurrences (c : ascii) (s : string) : nat :=
  match s with
  | EmptyString => 0
  | String d rest => (if Ascii.eqb c d then 1 else 0) + occurrences c rest
  end.

(** ** The chat bot *)

(** What can go wrong while the chat bot is set up. *)
Inductive ChatFailure : Type :=
| ReadError      (* tokens.json cannot be read *)
| ParseError     (* tokens.json is not JSON *)
| ConnectError.  (* the chat connection fails *)

(** [RefreshingAuthProvider], over the type [D] of the token data. *)
Record RefreshingAuthProvider (D : Type) : Type := mkAuthProvider {
  provider_clientId : string;
  provider_clientSecret : string;
  tokenData : D
}.
Arguments mkAuthProvider {D} _ _ _.
Arguments provider_clientId {D} _.
Arguments provider_clientSecret {D} _.
Arguments tokenData {D} _.

(** [ChatClient]: its configuration, whether it is connected, and the
    listener registered with [onMessage]. *)
Record ChatClient (D : Type) : Type := mkChatClient {
  authProvider : RefreshingAuthProvider D;
  channels : list string;
  connected : bool;
  listener : option (string -> string -> string -> PrivateMessage -> Async unit)
}.
Arguments mkChatClient {D} _ _ _ _.
Arguments authProvider {D} _.
Arguments channels {D} _.
Arguments connected {D} _.
Arguments listener {D} _.

(** The state the chat bot lives in: the file ./tokens.json ([None] when
    there is none), the console, and the field [chatClient] of the
    controller. *)
Record ChatWorld (D : Type) : Type := mkChatWorld {
  tokens_json : option string;
  console : list ChatFailure;
  chatClient : option (ChatClient D)
}.
Arguments mkChatWorld {D} _ _ _.
Arguments tokens_json {D} _.
Arguments console {D} _.
Arguments chatClient {D} _.

(** [client.connect()] resolving, and [client.onMessage(h)]. *)
Definition connect {D} (client : ChatClient D) : ChatClient D :=
  mkChatClient (authProvider client) (channels client) true (listener client).

Definition on_message {D}
  (h : string -> string -> string -> PrivateMessage -> Async unit)
  (client : ChatClient D) : ChatClient D :=
  mkChatClient (authProvider client) (channels client) (connected client)
    (Some h).

Section ChatBot.

(** The token data, with [JSON.parse] on it ([None] when it throws) and
    [JSON.stringify(_, null, 4)]. *)
Variable D : Type.
Variable parse : string -> option D.
Variable stringify : D -> string.

Variable this : TwitchController.

(** [getAuthProvider]: reads and parses ./tokens.json; either step may
    throw. The client id and secret are the ones of the environment. *)
Definition getAuthProvider (cw : ChatWorld D)
  : ChatFailure + RefreshingAuthProvider D :=
  match tokens_json cw with
  | None => inl ReadError
  | Some text =>
      match parse text with
      | None => inl ParseError
      | Some tokenData =>
          inr (mkAuthProvider (clientId this) (clientSecret this) tokenData)
      end
  end.

(** [onRefresh] of the provider: the new token data replaces the file. *)
Definition onRefresh (newTokenData : D) (cw : ChatWorld D) : ChatWorld D :=
  mkChatWorld (Some (stringify newTokenData)) (console cw) (chatClient cw).

(** [setupChatBot]; [connects] tells whether [chatClient.connect()]
    resolves. *)
Definition setupChatBot (connects : bool) (cw : ChatWorld D)
  : (ChatFailure + unit) * ChatWorld D :=
  match getAuthProvider cw with
  | inl error => (inl error, cw)
  | inr provider =>
      let client := mkChatClient provider [username this] false None in
      (* try { await this.chatClient.connect() } catch (error) {
           console.error(error) } *)
      let tried :=
        if connects then (connect client, console cw)
        else (client, console cw ++ [ConnectError]) in
      (* this.chatClient.onMessage(...) *)
      (inr tt,
       mkChatWorld (tokens_json cw) (snd tried)
         (Some (on_message (onMessage this) (fst tried))))
  end.

End ChatBot.

(** ** The websocket route, src/pages/api/ws/[event].ts *)

(** A value of [req.query]: a string, or the list of the values of a
    repeated parameter. *)
Inductive QueryValue : Type :=
| single (s : string)
| several (l : list string).

Definition Query : Type := list (string * QueryValue).

(** [query[k]]: [None] is undefined. *)
Fixpoint query_get (query : Query) (k : string) : option QueryValue :=
  match query with
  | [] => None
  | (k', v) :: rest => if k' =? k then Some v else query_get rest k
  end.

(** Truthiness: undefined and the empty string are falsy, every array is
    truthy. *)
Definition truthy_value (v : option QueryValue) : bool :=
  match v with
  | None => false
  | Some (single s) => negb (s =? "")
  | Some (several _) => true
  end.

(** What the route does: the calls of [res.server.ws.emit] and the
    status it ends the response with. *)
Record RouteOutcome : Type := mkOutcome {
  emitted : list (QueryValue * Query);
  status : Z
}.

(** The handler; [emit] is what [res.server.ws.emit] returns. *)
Definition handler (emit : QueryValue -> Query -> bool) (query : Query)
  : RouteOutcome :=
  let event := query_get query "event" in
  if negb (truthy_value event) then mkOutcome [] 400
  else
    match event with
    | Some event =>
        let result := emit event query in
        mkOutcome [(event, query)] (if result then 200 else 500)
    | None => mkOutcome [] 400
    end.

(** ** The now-playing route, src/pages/api/spotify.ts *)

(** A JSON value, as [response.json()] yields it. Numbers are kept as they
    are written; the members of an object have distinct keys. *)
#[warnings="-register-all"]
Inductive JSON : Type :=
| JNull
| JBool (b : bool)
| JNumber (literal : string)
| JString (s : string)
| JArray (elements : list JSON)
| JObject (members : list (string * JSON)).

(** A value read out of a body: JSON, or [None] for undefined. *)
Definition Value : Type := option JSON.

Fixpoint member (members : list (string * JSON)) (k : string) : Value :=
  match members with
  | [] => None
  | (k', v) :: rest => if k' =? k then Some v else member rest k
  end.

(** [c] and then [k], unless [c] threw. *)
Definition and_then {A B} (c : Completion A) (k : A -> Completion B)
  : Completion B :=
  match c with
  | Returned a => k a
  | Thrown e => Thrown e
  end.

(** [v.k], for the property names the route reads (none of them is a
    property of an array, a string, a number or a boolean): a TypeError on
    undefined and on null, the member of an object, undefined otherwise. *)
Definition get (v : Value) (k : string) : Completion Value :=
  match v with
  | None => Thrown TypeError
  | Some JNull => Thrown TypeError
  | Some (JObject members) => Returned (member members k)
  | Some _ => Returned None
  end.

(** [artists.map((_artist) => _artist.name)]: only an array has [map];
    the callback reads [name] of every element in turn. *)
Fixpoint names_of (elements : list JSON) : Completion (list Value) :=
  match elements with
  | [] => Returned []
  | _artist :: rest =>
      and_then (get (Some _artist) "name") (fun name =>
      and_then (names_of rest) (fun names =>
      Returned (name :: names)))
  end.

Definition map_names (artists : Value) : Completion (list Value) :=
  match artists with
  | Some (JArray elements) => names_of elements
  | _ => Thrown TypeError
  end.

(** [images[0].url]: the first element of an array, the first unit of a
    string, the member "0" of an object, undefined for a number or a
    boolean; then [url] of that. *)
Definition first_url (images : Value) : Completion Value :=
  match images with
  | None => Thrown TypeError
  | Some JNull => Thrown TypeError
  | Some (JArray []) => Thrown TypeError
  | Some (JArray (image :: _)) => get (Some image) "url"
  | Some (JString "") => Thrown TypeError
  | Some (JString _) => Returned None
  | Some (JObject members) => get (member members "0") "url"
  | Some _ => Thrown TypeError
  end.

(** The answer of [getNowPlaying]: its status and what [response.json()]
    yields ([None] when it rejects). *)
Record PlayerResponse : Type := mkPlayerResponse {
  player_status : Z;
  player_json : option JSON
}.

(** The JSON the route answers with. [artist] is the list of the names
    that [join(", ")] turns into one string. *)
Inductive NowPlaying : Type :=
| not_playing   (* { isPlaying: false } *)
| playing (album albumImageUrl : Value) (artist : list Value)
    (isPlaying songUrl title : Value).

(** The reads of the route on the body, in the order of the source. *)
Definition now_playing (body : JSON) : Completion (Z * NowPlaying) :=
  let song := Some body in
  and_then (get song "is_playing") (fun isPlaying =>
  and_then (get song "item") (fun item =>
  and_then (get item "name") (fun title =>
  and_then (get item "artists") (fun artists =>
  and_then (map_names artists) (fun artist =>
  and_then (get item "album") (fun item_album =>
  and_then (get item_album "name") (fun album =>
  and_then (get item_album "images") (fun images =>
  and_then (first_url images) (fun albumImageUrl =>
  and_then (get item "external_urls") (fun external_urls =>
  and_then (get external_urls "spotify") (fun songUrl =>
  Returned
    (200%Z, playing album albumImageUrl artist isPlaying songUrl title)
  ))))))))))).

(** The route: the status and body it answers with, or the error it
    throws. *)
Definition spotify (response : PlayerResponse) : Completion (Z * NowPlaying) :=
  if (player_status response =? 204)%Z || (player_status response >? 400)%Z
  then Returned (200%Z, not_playing)
  else
    match player_json response with
    | None => Thrown FetchError
    | Some song => now_playing song
    end.

(** ** More examples *)

(** A stand-in for the JSON functions on token data kept as text: the
    empty text does not parse. *)
Definition parse_text (text : string) : option string :=
  if text =? "" then None else Some text.

Definition print_text (tokenData : string) : string := tokenData.

(** The state of a player on a track by two artists, with the given
    covers. *)
Definition a_song (covers : list JSON) : JSON :=
  JObject
    [ ("is_playing", JBool true);
      ("item",
       JObject
         [ ("name", JString "Song");
           ("artists",
            JArray [ JObject [("name", JString "Ann")];
                     JObject [("name", JString "Bob")] ]);
           ("album",
            JObject [("name", JString "Album"); ("images", JArray covers)]);
           ("external_urls",
            JObject [("spotify", JString "https://open.spotify.example/track/1")])
         ]) ].

(** ** Runs of the building blocks *)

Lemma skipn_length_app {A} (l r : list A) : skipn (length l) (l ++ r) = r.
Proof. induction l as [|x l IH]; simpl; [reflexivity | exact IH]. Qed.

Lemma runs_events {A} (m : Async A) w r evs w' :
  runs m w r evs w' -> events_of m w = evs /\ fst (m w) = r /\ snd (m w) = w'.
Proof.
  intros (Hm & Ht & _ & _). unfold events_of. rewrite Hm. simpl.
  rewrite Ht, skipn_length_app. auto.
Qed.

Lemma runs_ret {A} (a : A) w : runs (ret a) w (Returned a) [] w.
Proof. unfold runs, ret. rewrite app_nil_r. auto. Qed.

Lemma runs_throw {A} e w : runs (@throw A e) w (Thrown e) [] w.
Proof. unfold runs, throw. rewrite app_nil_r. auto. Qed.

Lemma runs_bind {A B} (m : Async A) (k : A -> Async B) w a evs1 w1 r evs2 w2 :
  runs m w (Returned a) evs1 w1 ->
  runs (k a) w1 r evs2 w2 ->
  runs (bind m k) w r (evs1 ++ evs2) w2.
Proof.
  intros (Hm & Ht & Hn & Hc) (Hk & Ht2 & Hn2 & Hc2). unfold runs, bind.
  rewrite Hm, Hk, Ht2, Ht, app_assoc. repeat split; congruence.
Qed.

Lemma runs_bind_thrown {A B} (m : Async A) (k : A -> Async B) w e evs w1 :
  runs m w (Thrown e) evs w1 ->
  runs (bind m k) w (Thrown e) evs w1.
Proof.
  intros (Hm & Ht & Hn & Hc). unfold runs, bind. rewrite Hm. auto.
Qed.

Lemma runs_try_returned {A} (m : Async A) h w a evs w1 :
  runs m w (Returned a) evs w1 ->
  runs (try_catch m h) w (Returned a) evs w1.
Proof.
  intros (Hm & Ht & Hn & Hc). unfold runs, try_catch. rewrite Hm. auto.
Qed.

Lemma runs_try_caught {A} (m : Async A) h w e evs1 w1 r evs2 w2 :
  runs m w (Thrown e) evs1 w1 ->
  runs (h e) w1 r evs2 w2 ->
  runs (try_catch m h) w r (evs1 ++ evs2) w2.
Proof.
  intros (Hm & Ht & Hn & Hc) (Hk & Ht2 & Hn2 & Hc2). unfold runs, try_catch.
  rewrite Hm, Hk, Ht2, Ht, app_assoc. repeat split; congruence.
Qed.

Lemma runs_console_error e w :
  runs (console_error e) w (Returned tt) [ConsoleError e]
    (record (ConsoleError e) w).
Proof. unfold runs, console_error. auto. Qed.

Lemma runs_call e w :
  runs (call e) w
    (if throws w (trace w) e then Thrown ActionError else Returned tt)
    [e] (record e w).
Proof. unfold runs, call. destruct (throws w (trace w) e); auto. Qed.

(** The three ways a fetch ends. *)
Lemma runs_fetch_rejected r w :
  network w (trace w) r = NetworkError ->
  runs (fetch r) w (Thrown FetchError) [Fetch r] (record (Fetch r) w).
Proof. intros H. unfold runs, fetch. rewrite H. auto. Qed.

Lemma runs_fetch_refused r w :
  network w (trace w) r = HttpError ->
  runs (fetch r) w (Returned (mkJson None None)) [Fetch r]
    (record (Fetch r) w).
Proof. intros H. unfold runs, fetch. rewrite H. auto. Qed.

Lemma runs_fetch_served r w p :
  network w (trace w) r = Success p ->
  runs (fetch r) w (Returned (answer_body r p (registry w))) [Fetch r]
    (set_registry (served r p (registry w)) (record (Fetch r) w)).
Proof. intros H. unfold runs, fetch. rewrite H. auto. Qed.

Lemma registry_calls_app evs1 evs2 :
  registry_calls (evs1 ++ evs2) = registry_calls evs1 ++ registry_calls evs2.
Proof.
  induction evs1 as [|e evs1 IH]; simpl; [reflexivity|].
  destruct (registry_call e); simpl; rewrite IH; reflexivity.
Qed.

(** ** Runs of the registry helpers *)

Lemma deleteSubscription_rejected e token cid w :
  network w (trace w) (ReqDelete (sub_id e) token cid) = NetworkError ->
  runs (deleteSubscription e token cid) w (Thrown FetchError)
    [Fetch (ReqDelete (sub_id e) token cid)]
    (record (Fetch (ReqDelete (sub_id e) token cid)) w).
Proof.
  intros H. unfold deleteSubscription.
  apply runs_bind_thrown, runs_fetch_rejected, H.
Qed.

Lemma deleteSubscription_delivered e token cid w :
  network w (trace w) (ReqDelete (sub_id e) token cid) <> NetworkError ->
  exists j w',
    runs (deleteSubscription e token cid) w (Returned j)
      [Fetch (ReqDelete (sub_id e) token cid)] w' /\
    registry w' =
      match network w (trace w) (ReqDelete (sub_id e) token cid) with
      | Success _ => filter (fun s => negb (sub_id s =? sub_id e)) (registry w)
      | _ => registry w
      end.
Proof.
  intros H. unfold deleteSubscription.
  destruct (network w (trace w) (ReqDelete (sub_id e) token cid)) as [| |p] eqn:E.
  - congruence.
  - eexists _, _. split.
    + rewrite <- (app_nil_r [Fetch _]).
      eapply runs_bind; [apply runs_fetch_refused, E | apply runs_ret].
    + reflexivity.
  - eexists _, _. split.
    + rewrite <- (app_nil_r [Fetch _]).
      eapply runs_bind; [apply runs_fetch_served, E | apply runs_ret].
    + reflexivity.
Qed.

(** [createSubscription] never throws: a rejected fetch is caught and
    written to the console. *)
Lemma createSubscription_runs token cid T cond cb secret w :
  let req := ReqCreate token cid (mkBody T "1" cond "webhook" cb secret) in
  exists o evs w',
    runs (createSubscription token cid T cond cb secret) w (Returned o) evs w' /\
    evs = Fetch req ::
          match network w (trace w) req with
          | NetworkError => [ConsoleError FetchError]
          | _ => []
          end /\
    registry w' =
      match network w (trace w) req with
      | Success p => registry w ++ [registered p (mkBody T "1" cond "webhook" cb secret)]
      | _ => registry w
      end.
Proof.
  intros req. unfold createSubscription. fold req.
  destruct (network w (trace w) req) as [| |p] eqn:E.
  - exists None, ([Fetch req] ++ ([ConsoleError FetchError] ++ [])).
    eexists. split.
    + eapply runs_try_caught.
      * apply runs_bind_thrown, runs_fetch_rejected, E.
      * eapply runs_bind; [apply runs_console_error | apply runs_ret].
    + split; reflexivity.
  - eexists _, ([Fetch req] ++ []), _. split.
    + apply runs_try_returned.
      eapply runs_bind; [apply runs_fetch_refused, E | apply runs_ret].
    + split; reflexivity.
  - eexists _, ([Fetch req] ++ []), _. split.
    + apply runs_try_returned.
      eapply runs_bind; [apply runs_fetch_served, E | apply runs_ret].
    + split; reflexivity.
Qed.

Lemma createSubscription_calls token cid T cond cb secret w :
  exists o evs w',
    runs (createSubscription token cid T cond cb secret) w (Returned o) evs w' /\
    registry_calls evs = [CreateCall T cond].
Proof.
  destruct (createSubscription_runs token cid T cond cb secret w)
    as (o & evs & w' & Hr & He & _).
  exists o, evs, w'. split; [exact Hr|]. subst evs.
  destruct (network w (trace w) _); reflexivity.
Qed.

(** ** One turn of the loop *)

(** A turn either returns, having issued what the plan says, or is cut
    short by a delete request that the network rejects. *)
Lemma setupEventSub_turn_runs this token L entry w :
  exists r evs w',
    runs (setupEventSub_turn this token (Some L) entry) w r evs w' /\
    ((r = Returned tt /\ registry_calls evs = plan this L entry) \/
     (r = Thrown FetchError /\
      exists e,
        existing_for (fst entry) L = Some e /\
        healthy (sub_status e) = false /\
        network w (trace w) (ReqDelete (sub_id e) token (clientId this))
          = NetworkError /\
        registry_calls evs = [DeleteCall (sub_id e)])).
Proof.
  destruct entry as [T c].
  unfold setupEventSub_turn, plan, existing_for, array_find.
  simpl fst; simpl snd.
  change (fun sub => sub_type sub =? type_name T) with (has_type T).
  destruct (find (has_type T) L) as [e|] eqn:Ef.
  - destruct (healthy (sub_status e)) eqn:Eh.
    + eexists _, _, _. split.
      * eapply runs_bind; [apply runs_ret|]. simpl. rewrite Eh. apply runs_ret.
      * left. split; reflexivity.
    + destruct (network w (trace w) (ReqDelete (sub_id e) token (clientId this)))
        as [| |p] eqn:En.
      * eexists _, _, _. split.
        -- eapply runs_bind; [apply runs_ret|]. simpl. rewrite Eh.
           apply runs_bind_thrown, runs_bind_thrown.
           apply deleteSubscription_rejected, En.
        -- right. split; [reflexivity|]. exists e. auto.
      * destruct (deleteSubscription_delivered e token (clientId this) w)
          as (j & w1 & Hd & _); [congruence|].
        destruct (createSubscription_calls token (clientId this) T
                    (resolve this c) (callback this) (webhookSecret this) w1)
          as (o & evs & w2 & Hc & Hcalls).
        eexists _, _, _. split.
        -- eapply runs_bind; [apply runs_ret|]. simpl. rewrite Eh.
           eapply runs_bind.
           ++ eapply runs_bind; [exact Hd | apply runs_ret].
           ++ eapply runs_bind; [exact Hc | apply runs_ret].
        -- left. split; [reflexivity|].
           simpl. rewrite !registry_calls_app, Hcalls. reflexivity.
      * destruct (deleteSubscription_delivered e token (clientId this) w)
          as (j & w1 & Hd & _); [congruence|].
        destruct (createSubscription_calls token (clientId this) T
                    (resolve this c) (callback this) (webhookSecret this) w1)
          as (o & evs & w2 & Hc & Hcalls).
        eexists _, _, _. split.
        -- eapply runs_bind; [apply runs_ret|]. simpl. rewrite Eh.
           eapply runs_bind.
           ++ eapply runs_bind; [exact Hd | apply runs_ret].
           ++ eapply runs_bind; [exact Hc | apply runs_ret].
        -- left. split; [reflexivity|].
           simpl. rewrite !registry_calls_app, Hcalls. reflexivity.
  - destruct (createSubscription_calls token (clientId this) T
                (resolve this c) (callback this) (webhookSecret this) w)
      as (o & evs & w2 & Hc & Hcalls).
    eexists _, _, _. split.
    + eapply runs_bind; [apply runs_ret|]. simpl.
      eapply runs_bind; [apply runs_ret|].
      eapply runs_bind; [exact Hc | apply runs_ret].
    + left. split; [reflexivity|].
      simpl. rewrite !registry_calls_app, Hcalls. reflexivity.
Qed.

(** ** The whole loop *)

(** The calls of the loop are an initial part of the plan, and the whole of
    it when no planned delete is lost on the network. *)
Lemma for_of_turn_runs this token L l : forall w,
  exists r evs w' rest,
    runs (for_of l (setupEventSub_turn this token (Some L))) w r evs w' /\
    flat_map (plan this L) l = registry_calls evs ++ rest /\
    ((forall h id, In (DeleteCall id) (flat_map (plan this L) l) ->
        network w h (ReqDelete id token (clientId this)) <> NetworkError) ->
     r = Returned tt /\ rest = []).
Proof.
  induction l as [|entry l IH]; intros w.
  - exists (Returned tt), [], w, []. split; [apply runs_ret|]. auto.
  - destruct (setupEventSub_turn_runs this token L entry w)
      as (r1 & evs1 & w1 & Hrun1 & [[-> Hplan] | [-> (e & Hf & Hh & Hn & Hcalls)]]).
    + destruct (IH w1) as (r & evs2 & w2 & rest & Hrun2 & Hcalls & Hok).
      exists r, (evs1 ++ evs2), w2, rest. split; [|split].
      * simpl. eapply runs_bind; eassumption.
      * simpl. rewrite registry_calls_app, Hplan, Hcalls, app_assoc. reflexivity.
      * intros Hdel. apply Hok. intros h id Hin.
        destruct Hrun1 as (_ & _ & -> & _). apply Hdel. simpl.
        apply in_or_app. right. exact Hin.
    + exists (Thrown FetchError), evs1, w1.
      exists (CreateCall (fst entry) (resolve this (snd entry))
                :: flat_map (plan this L) l).
      split; [|split].
      * simpl. apply runs_bind_thrown. exact Hrun1.
      * simpl. unfold plan at 1. rewrite Hf, Hh, Hcalls. reflexivity.
      * intros Hdel. exfalso. apply (Hdel (trace w) (sub_id e)); [|exact Hn].
        simpl. unfold plan at 1. rewrite Hf, Hh. simpl. auto.
Qed.

(** Without a listing the first turn fails on [subscriptions.find]. *)
Lemma for_of_turn_undefined this token entry l w :
  runs (for_of (entry :: l) (setupEventSub_turn this token None)) w
    (Thrown TypeError) [] w.
Proof.
  simpl. apply runs_bind_thrown. destruct entry as [T c].
  unfold setupEventSub_turn. apply runs_bind_thrown.
  unfold array_find. apply runs_throw.
Qed.

Lemma getToken_runs this w :
  let req := ReqToken [("client_id", clientId this);
                       ("client_secret", clientSecret this);
                       ("grant_type", "client_credentials")] in
  exists r w',
    runs (getToken this) w r [Fetch req] w' /\
    registry w' = registry w /\
    (network w (trace w) req <> NetworkError -> exists token, r = Returned token).
Proof.
  intros req. unfold getToken. fold req.
  destruct (network w (trace w) req) as [| |p] eqn:E.
  - eexists _, _. split; [|split].
    + apply runs_bind_thrown, runs_fetch_rejected, E.
    + reflexivity.
    + congruence.
  - eexists _, _. split; [|split].
    + rewrite <- (app_nil_r [Fetch _]).
      eapply runs_bind; [apply runs_fetch_refused, E | apply runs_ret].
    + reflexivity.
    + eauto.
  - eexists _, _. split; [|split].
    + rewrite <- (app_nil_r [Fetch _]).
      eapply runs_bind; [apply runs_fetch_served, E | apply runs_ret].
    + reflexivity.
    + eauto.
Qed.

Lemma listSubscriptions_runs token cid w :
  exists r w',
    runs (listSubscriptions token cid) w r [Fetch (ReqList token cid)] w' /\
    registry w' = registry w /\
    ((exists e, r = Thrown e) \/ r = Returned None \/
     r = Returned (Some (registry w))) /\
    ((exists p, network w (trace w) (ReqList token cid) = Success p) ->
     r = Returned (Some (registry w))).
Proof.
  unfold listSubscriptions.
  destruct (network w (trace w) (ReqList token cid)) as [| |p] eqn:E.
  - eexists _, _. split; [|split; [|split]].
    + apply runs_bind_thrown, runs_fetch_rejected, E.
    + reflexivity.
    + left. eauto.
    + intros [p Hp]. discriminate.
  - eexists _, _. split; [|split; [|split]].
    + rewrite <- (app_nil_r [Fetch _]).
      eapply runs_bind; [apply runs_fetch_refused, E | apply runs_ret].
    + reflexivity.
    + right. left. reflexivity.
    + intros [p Hp]. discriminate.
  - eexists _, _. split; [|split; [|split]].
    + rewrite <- (app_nil_r [Fetch _]).
      eapply runs_bind; [apply runs_fetch_served, E | apply runs_ret].
    + reflexivity.
    + right. right. reflexivity.
    + reflexivity.
Qed.

(** The calls of [setupEventSub] are an initial part of the plan drawn
    from the registry, and the whole of it when the listing is served and
    no planned delete is lost. *)
Lemma setupEventSub_runs this w :
  exists r evs w' rest,
    runs (setupEventSub this) w r evs w' /\
    flat_map (plan this (registry w)) (eventTypes this)
      = registry_calls evs ++ rest /\
    (listing_served w ->
     (forall h id token, 
        In (DeleteCall id) (flat_map (plan this (registry w)) (eventTypes this)) ->
        network w h (ReqDelete id token (clientId this)) <> NetworkError) ->
     r = Returned tt /\ rest = []).
Proof.
  unfold setupEventSub.
  destruct (getToken_runs this w) as (r1 & w1 & Hrun1 & Hreg1 & Hok1).
  destruct r1 as [token|e].
  2:{ eexists _, _, _, _. split; [apply runs_bind_thrown; exact Hrun1|].
      split; [reflexivity|]. intros [Htok _] _.
      destruct Hok1 as [t Ht]; [apply Htok | discriminate]. }
  destruct (listSubscriptions_runs token (clientId this) w1)
    as (r2 & w2 & Hrun2 & Hreg2 & Hcases & Hok2).
  assert (Hnet : network w2 = network w).
  { destruct Hrun1 as (_ & _ & Hn1 & _), Hrun2 as (_ & _ & Hn2 & _). congruence. }
  destruct Hcases as [[e ->] | [-> | ->]].
  - eexists _, _, _, _. split.
    + eapply runs_bind; [exact Hrun1|]. apply runs_bind_thrown. exact Hrun2.
    + split; [reflexivity|]. intros [_ Hlist] _.
      destruct Hrun1 as (_ & _ & Hn1 & _).
      destruct (Hlist (trace w1) token (clientId this)) as [p Hp].
      rewrite <- Hn1 in Hp. specialize (Hok2 (ex_intro _ p Hp)). discriminate.
  - eexists _, _, _, _. split.
    + eapply runs_bind; [exact Hrun1|]. eapply runs_bind; [exact Hrun2|].
      apply for_of_turn_undefined.
    + split; [reflexivity|]. intros [_ Hlist] _.
      destruct Hrun1 as (_ & _ & Hn1 & _).
      destruct (Hlist (trace w1) token (clientId this)) as [p Hp].
      rewrite <- Hn1 in Hp. specialize (Hok2 (ex_intro _ p Hp)). discriminate.
  - rewrite Hreg1 in Hrun2.
    destruct (for_of_turn_runs this token (registry w) (eventTypes this) w2)
      as (r & evs & w3 & rest & Hrun3 & Hcalls & Hok3).
    exists r, ([Fetch (ReqToken [("client_id", clientId this);
                                 ("client_secret", clientSecret this);
                                 ("grant_type", "client_credentials")])]
               ++ [Fetch (ReqList token (clientId this))] ++ evs), w3, rest.
    split; [|split].
    + eapply runs_bind; [exact Hrun1|]. eapply runs_bind; [exact Hrun2|].
      exact Hrun3.
    + simpl. exact Hcalls.
    + intros _ Hdel. apply Hok3. intros h id Hin. rewrite Hnet.
      apply Hdel, Hin.
Qed.

(** ** Facts about the plan *)

Lemma type_name_inj a b : type_name a = type_name b -> a = b.
Proof. destruct a, b; intros H; try reflexivity; discriminate H. Qed.

Lemma NoDup_map_inj {A B} (f : A -> B) (l : list A) a b :
  NoDup (map f l) -> In a l -> In b l -> f a = f b -> a = b.
Proof.
  induction l as [|x l IH]; simpl; intros Hnd Ha Hb Hf; [contradiction|].
  inversion Hnd as [|y ys Hnotin Hnd']; subst.
  destruct Ha as [->|Ha], Hb as [->|Hb]; auto.
  - exfalso. apply Hnotin. rewrite Hf. apply in_map, Hb.
  - exfalso. apply Hnotin. rewrite <- Hf. apply in_map, Ha.
Qed.

Lemma existing_for_some T L e :
  existing_for T L = Some e -> In e L /\ sub_type e = type_name T.
Proof.
  unfold existing_for. intros H. apply find_some in H. destruct H as [Hin Ht].
  split; [exact Hin|]. apply String.eqb_eq. exact Ht.
Qed.

Lemma eventTypes_names_NoDup this :
  NoDup (map (fun entry => type_name (fst entry)) (eventTypes this)).
Proof.
  simpl. repeat constructor; simpl; intuition discriminate.
Qed.

(** A healthy first-listed subscription leaves nothing to do. *)
Lemma plan_healthy this L l :
  (forall entry, In entry l ->
     exists e, existing_for (fst entry) L = Some e /\
               healthy (sub_status e) = true) ->
  flat_map (plan this L) l = [].
Proof.
  induction l as [|entry l IH]; intros H; [reflexivity|]. simpl.
  destruct (H entry) as (e & He & Hh); [left; reflexivity|].
  unfold plan at 1. rewrite He, Hh. simpl. apply IH.
  intros en Hin. apply H. right. exact Hin.
Qed.

(** The turns of other types issue nothing about [T] or about the id of
    [T]'s existing subscription. *)
Lemma plan_concerns_other this L T e entry :
  existing_for T L = Some e ->
  NoDup (map sub_id L) ->
  type_name (fst entry) <> type_name T ->
  filter (concerns T (sub_id e)) (plan this L entry) = [].
Proof.
  intros He Hnd Hne. unfold plan.
  assert (Hc : (type_name (fst entry) =? type_name T) = false)
    by (apply String.eqb_neq; exact Hne).
  destruct (existing_for (fst entry) L) as [e'|] eqn:He'.
  - destruct (healthy (sub_status e')); [reflexivity|]. simpl. rewrite Hc.
    destruct (sub_id e' =? sub_id e) eqn:Eid; [|reflexivity].
    exfalso. apply String.eqb_eq in Eid.
    apply existing_for_some in He. apply existing_for_some in He'.
    destruct He as [Hin Ht], He' as [Hin' Ht'].
    assert (e' = e) by (eapply NoDup_map_inj; eauto). subst e'.
    congruence.
  - simpl. rewrite Hc. reflexivity.
Qed.

Lemma plan_concerns_self this L T c e :
  existing_for T L = Some e ->
  healthy (sub_status e) = false ->
  filter (concerns T (sub_id e)) (plan this L (T, c))
    = [DeleteCall (sub_id e); CreateCall T (resolve this c)].
Proof.
  intros He Hh. unfold plan. simpl. rewrite He, Hh. simpl.
  rewrite !String.eqb_refl. reflexivity.
Qed.

Lemma plan_concerns this L T c e l :
  existing_for T L = Some e ->
  healthy (sub_status e) = false ->
  NoDup (map sub_id L) ->
  NoDup (map (fun entry => type_name (fst entry)) l) ->
  (In (T, c) l ->
   filter (concerns T (sub_id e)) (flat_map (plan this L) l)
     = [DeleteCall (sub_id e); CreateCall T (resolve this c)]) /\
  ((forall entry, In entry l -> type_name (fst entry) <> type_name T) ->
   filter (concerns T (sub_id e)) (flat_map (plan this L) l) = []).
Proof.
  intros He Hh Hids. induction l as [|entry l IH]; intros Hnd.
  - split; [intros []|reflexivity].
  - simpl in Hnd. inversion Hnd as [|x xs Hnotin Hnd']; subst.
    destruct (IH Hnd') as [IHin IHout]. simpl. rewrite !filter_app. split.
    + intros [->|Hin].
      * rewrite (plan_concerns_self _ _ _ _ _ He Hh), IHout; [reflexivity|].
        intros en Hen Heq. apply Hnotin. simpl. rewrite <- Heq.
        apply (in_map (fun entry => type_name (fst entry))), Hen.
      * rewrite (plan_concerns_other _ _ _ _ _ He Hids), (IHin Hin); [reflexivity|].
        intros Heq. apply Hnotin. rewrite Heq.
        apply (in_map (fun entry => type_name (fst entry)) _ (T, c)), Hin.
    + intros Hall.
      rewrite (plan_concerns_other _ _ _ _ _ He Hids), IHout; [reflexivity| |].
      * intros en Hen. apply Hall. right. exact Hen.
      * apply Hall. left. reflexivity.
Qed.

(** ** Reconciliation: the calls issued *)

(** C2, as stated, fails: in [shadowed] every desired type has an enabled
    or pending subscription, but the follow subscription listed first is a
    revoked one, and that is the one [setupEventSub] looks at. It deletes
    it and creates a follow subscription. *)
Lemma shadowed_follow_is_replaced :
  (forall entry, In entry (eventTypes controller) ->
     exists s, In s shadowed /\ has_type (fst entry) s = true /\
               healthy (sub_status s) = true) /\
  registry_calls
    (events_of (setupEventSub controller) (boot shadowed obliging calm))
  = [DeleteCall "0"; CreateCall channel_follow broadcaster].
Proof.
  split; [|vm_compute; reflexivity].
  intros entry Hin.
  assert (H : forallb
                (fun entry =>
                   existsb (fun s => has_type (fst entry) s
                                     && healthy (sub_status s)) shadowed)
                (eventTypes controller) = true) by reflexivity.
  rewrite forallb_forall in H. apply H in Hin.
  apply existsb_exists in Hin. destruct Hin as (s & Hs & Hb).
  apply andb_prop in Hb. exists s. tauto.
Qed.

(** C2, amended: if for every desired type the first listed subscription
    of that type is enabled or pending verification, [setupEventSub]
    issues no delete and no create, however the platform answers. *)
Theorem setupEventSub_noop_on_healthy this w :
  (forall entry, In entry (eventTypes this) ->
     exists e, existing_for (fst entry) (registry w) = Some e /\
               healthy (sub_status e) = true) ->
  registry_calls (events_of (setupEventSub this) w) = [].
Proof.
  intros H.
  destruct (setupEventSub_runs this w) as (r & evs & w' & rest & Hrun & Hplan & _).
  apply runs_events in Hrun. destruct Hrun as (-> & _ & _).
  rewrite (plan_healthy _ _ _ H) in Hplan.
  symmetry in Hplan. apply app_eq_nil in Hplan. tauto.
Qed.

Lemma setupEventSub_noop_on_healthy_witness :
  registry_calls
    (events_of (setupEventSub controller) (boot converged obliging calm)) = [].
Proof.
  apply (setupEventSub_noop_on_healthy controller (boot converged obliging calm)).
  intros entry Hin. simpl in Hin.
  repeat (destruct Hin as [<-|Hin];
          [eexists; split; [vm_compute; reflexivity | reflexivity]|]).
  contradiction.
Defined.

(** C3, as stated, fails: the registry holds a revoked raid subscription,
    but an enabled raid subscription is listed before it; [setupEventSub]
    finds the enabled one, and neither deletes the revoked one nor creates
    a raid subscription. *)
Lemma shadowed_revoked_raid_is_kept :
  In (channel_raid, Some [("to_broadcaster_user_id", "42")])
     (eventTypes controller) /\
  In raid_from [raid_to; raid_from] /\
  has_type channel_raid raid_from = true /\
  healthy (sub_status raid_from) = false /\
  filter (concerns channel_raid (sub_id raid_from))
    (registry_calls
       (events_of (setupEventSub controller)
          (boot [raid_to; raid_from] obliging calm)))
  = [].
Proof.
  repeat split; try reflexivity.
  - simpl. tauto.
  - simpl. tauto.
Qed.

(** C3, amended: if the first listed subscription of a desired type [T]
    is unhealthy, then, in a registry with distinct ids, when the listing
    is served and no delete request is lost on the network, the calls of
    [setupEventSub] about [T] are exactly one delete carrying that
    subscription's id followed by one create for [T]. *)
Theorem setupEventSub_replaces_unhealthy this w T c e :
  In (T, c) (eventTypes this) ->
  existing_for T (registry w) = Some e ->
  healthy (sub_status e) = false ->
  NoDup (map sub_id (registry w)) ->
  listing_served w ->
  deletes_delivered w ->
  filter (concerns T (sub_id e))
    (registry_calls (events_of (setupEventSub this) w))
  = [DeleteCall (sub_id e); CreateCall T (resolve this c)].
Proof.
  intros Hin He Hh Hids Hlist Hdel.
  destruct (setupEventSub_runs this w) as (r & evs & w' & rest & Hrun & Hplan & Hok).
  apply runs_events in Hrun. destruct Hrun as (-> & _ & _).
  destruct Hok as [_ ->]; [exact Hlist | intros h id token _; apply Hdel |].
  rewrite app_nil_r in Hplan. rewrite <- Hplan.
  apply (plan_concerns this (registry w) T c e (eventTypes this) He Hh Hids
           (eventTypes_names_NoDup this)).
  exact Hin.
Qed.

Lemma setupEventSub_replaces_unhealthy_witness :
  filter (concerns channel_follow "0")
    (registry_calls
       (events_of (setupEventSub controller) (boot shadowed obliging calm)))
  = [DeleteCall "0"; CreateCall channel_follow broadcaster].
Proof.
  apply (setupEventSub_replaces_unhealthy controller
           (boot shadowed obliging calm) channel_follow None
           (listed "0" authorization_revoked channel_follow broadcaster)).
  - simpl. tauto.
  - reflexivity.
  - reflexivity.
  - simpl. repeat constructor; simpl; intuition discriminate.
  - split; intros; simpl; [discriminate | eexists; reflexivity].
  - intros h id token cid. simpl. discriminate.
Defined.

(** C9: when the registry is empty and its listing is served,
    [setupEventSub] completes, having issued exactly one create per desired
    type, in the order of the list; the create for channel.raid carries
    [{ to_broadcaster_user_id: userId }] and every other create the
    default [{ broadcaster_user_id: userId }]. No delete is issued. *)
Theorem setupEventSub_creates_all_when_empty this w :
  registry w = [] ->
  listing_served w ->
  fst (setupEventSub this w) = Returned tt /\
  registry_calls (events_of (setupEventSub this) w)
  = [ CreateCall channel_follow [("broadcaster_user_id", userId this)];
      CreateCall channel_subscribe [("broadcaster_user_id", userId this)];
      CreateCall channel_channel_points_custom_reward_redemption_add
        [("broadcaster_user_id", userId this)];
      CreateCall channel_update [("broadcaster_user_id", userId this)];
      CreateCall channel_cheer [("broadcaster_user_id", userId this)];
      CreateCall channel_subscription_gift
        [("broadcaster_user_id", userId this)];
      CreateCall channel_raid [("to_broadcaster_user_id", userId this)] ].
Proof.
  intros Hreg Hlist.
  destruct (setupEventSub_runs this w) as (r & evs & w' & rest & Hrun & Hplan & Hok).
  apply runs_events in Hrun. destruct Hrun as (-> & -> & _).
  rewrite Hreg in Hplan, Hok.
  destruct Hok as [-> ->]; [exact Hlist | |].
  - intros h id token Hin. exfalso. simpl in Hin.
    repeat (destruct Hin as [Hin|Hin]; [discriminate Hin|]). exact Hin.
  - rewrite app_nil_r in Hplan. rewrite <- Hplan. split; reflexivity.
Qed.

Lemma setupEventSub_creates_all_when_empty_witness :
  fst (setupEventSub controller (boot [] obliging calm)) = Returned tt /\
  registry_calls
    (events_of (setupEventSub controller) (boot [] obliging calm))
  = [ CreateCall channel_follow [("broadcaster_user_id", "42")];
      CreateCall channel_subscribe [("broadcaster_user_id", "42")];
      CreateCall channel_channel_points_custom_reward_redemption_add
        [("broadcaster_user_id", "42")];
      CreateCall channel_update [("broadcaster_user_id", "42")];
      CreateCall channel_cheer [("broadcaster_user_id", "42")];
      CreateCall channel_subscription_gift [("broadcaster_user_id", "42")];
      CreateCall channel_raid [("to_broadcaster_user_id", "42")] ].
Proof.
  apply (setupEventSub_creates_all_when_empty controller (boot [] obliging calm)).
  - reflexivity.
  - split; intros; simpl; [discriminate | eexists; reflexivity].
Defined.

(** C4: a failing create never stops the loop, but a delete request that
    the network rejects does. From a registry holding one revoked follow
    subscription, on a network that loses the delete, [setupEventSub]
    throws out of the first turn: the follow subscription is not created
    and none of the six later types is processed. *)
Lemma lost_delete_aborts_setupEventSub :
  setupEventSub controller (boot revoked_follow lossy calm)
  = (Thrown FetchError,
     mkWorld revoked_follow
       [ Fetch (ReqToken [("client_id", "client");
                          ("client_secret", "client-secret");
                          ("grant_type", "client_credentials")]);
         Fetch (ReqList (Some "fresh") "client");
         Fetch (ReqDelete "stale" (Some "fresh") "client") ]
       lossy calm).
Proof. reflexivity. Qed.

(** The half of C4 that holds: a turn whose create fails, by a rejected
    fetch or by an error answer, still returns, so the loop goes on. *)
Lemma failed_create_does_not_abort this token L entry w :
  (forall e, existing_for (fst entry) L = Some e ->
             network w (trace w) (ReqDelete (sub_id e) token (clientId this))
             <> NetworkError) ->
  fst (setupEventSub_turn this token (Some L) entry w) = Returned tt.
Proof.
  intros Hdel.
  destruct (setupEventSub_turn_runs this token L entry w)
    as (r & evs & w' & Hrun & [[-> _] | [-> (e & He & _ & Hn & _)]]).
  - apply runs_events in Hrun. tauto.
  - exfalso. exact (Hdel e He Hn).
Qed.

(** ** Reconciliation: the registry reached *)

Lemma find_filter_some {A} (p : A -> bool) l e :
  find p l = Some e -> exists tl, filter p l = e :: tl.
Proof.
  induction l as [|x l IH]; simpl; [discriminate|].
  destruct (p x) eqn:E.
  - intros [= ->]. eauto.
  - exact IH.
Qed.

Lemma find_filter_none {A} (p : A -> bool) l :
  find p l = None -> filter p l = [].
Proof.
  induction l as [|x l IH]; simpl; [reflexivity|].
  destruct (p x); [discriminate | exact IH].
Qed.

Lemma filter_absorb {A} (p q : A -> bool) l :
  (forall s, In s l -> p s = true -> q s = true) ->
  filter p (filter q l) = filter p l.
Proof.
  induction l as [|x l IH]; simpl; intros H; [reflexivity|].
  destruct (q x) eqn:Eq; simpl.
  - destruct (p x); rewrite IH; auto.
  - destruct (p x) eqn:Ep.
    + rewrite (H x) in Eq; auto. discriminate.
    + apply IH. auto.
Qed.

Lemma filter_swap {A} (p q : A -> bool) l :
  filter p (filter q l) = filter q (filter p l).
Proof.
  induction l as [|x l IH]; simpl; [reflexivity|].
  destruct (p x) eqn:Ep, (q x) eqn:Eq; simpl; rewrite ?Ep, ?Eq, IH; reflexivity.
Qed.

Lemma healthy_of_filter T reg :
  healthy_of T reg
  = filter (fun s => healthy (sub_status s)) (filter (has_type T) reg).
Proof.
  unfold healthy_of. induction reg as [|x reg IH]; simpl; [reflexivity|].
  destruct (has_type T x); simpl; [destruct (healthy (sub_status x))|];
    rewrite IH; reflexivity.
Qed.

(** A served turn: what it makes of the registry. *)
Lemma setupEventSub_turn_served this token L entry w :
  serves L w ->
  exists evs w' p,
    runs (setupEventSub_turn this token (Some L) entry) w (Returned tt) evs w' /\
    ~ In p (map sub_id L) /\
    registry w' =
      let new := registered p
                   (mkBody (fst entry) "1" (resolve this (snd entry)) "webhook"
                      (callback this) (webhookSecret this)) in
      match existing_for (fst entry) L with
      | Some e =>
          if healthy (sub_status e) then registry w
          else filter (fun s => negb (sub_id s =? sub_id e)) (registry w) ++ [new]
      | None => registry w ++ [new]
      end.
Proof.
  intros Hs. destruct entry as [T c].
  unfold setupEventSub_turn, existing_for, array_find. simpl fst; simpl snd.
  change (fun sub => sub_type sub =? type_name T) with (has_type T).
  destruct (find (has_type T) L) as [e|] eqn:Ef.
  - destruct (healthy (sub_status e)) eqn:Eh.
    + destruct (Hs [] (ReqList None "")) as (p & _ & Hp).
      exists ([] ++ []), w, p. split; [|split; [exact Hp | reflexivity]].
      eapply runs_bind; [apply runs_ret|]. simpl. rewrite Eh. apply runs_ret.
    + destruct (Hs (trace w) (ReqDelete (sub_id e) token (clientId this)))
        as (p1 & Hn1 & _).
      destruct (deleteSubscription_delivered e token (clientId this) w)
        as (j & w1 & Hd & Hreg1); [congruence|].
      rewrite Hn1 in Hreg1.
      destruct (createSubscription_runs token (clientId this) T
                  (resolve this c) (callback this) (webhookSecret this) w1)
        as (o & evs & w2 & Hc & _ & Hreg2).
      destruct (Hs (trace w1)
                  (ReqCreate token (clientId this)
                     (mkBody T "1" (resolve this c) "webhook" (callback this)
                        (webhookSecret this)))) as (p2 & Hn2 & Hp2).
      assert (Hnet : network w1 = network w)
        by (destruct Hd as (_ & _ & Hn & _); exact Hn).
      rewrite Hnet, Hn2, Hreg1 in Hreg2.
      eexists _, w2, p2. split; [|split; [exact Hp2 | exact Hreg2]].
      eapply runs_bind; [apply runs_ret|]. simpl. rewrite Eh.
      eapply runs_bind.
      * eapply runs_bind; [exact Hd | apply runs_ret].
      * eapply runs_bind; [exact Hc | apply runs_ret].
  - destruct (createSubscription_runs token (clientId this) T
                (resolve this c) (callback this) (webhookSecret this) w)
      as (o & evs & w2 & Hc & _ & Hreg2).
    destruct (Hs (trace w)
                (ReqCreate token (clientId this)
                   (mkBody T "1" (resolve this c) "webhook" (callback this)
                      (webhookSecret this)))) as (p2 & Hn2 & Hp2).
    rewrite Hn2 in Hreg2.
    eexists _, w2, p2. split; [|split; [exact Hp2 | exact Hreg2]].
    eapply runs_bind; [apply runs_ret|]. simpl.
    eapply runs_bind; [apply runs_ret|].
    eapply runs_bind; [exact Hc | apply runs_ret].
Qed.

Lemma registered_has_type p T cond cb secret T' :
  has_type T' (registered p (mkBody T "1" cond "webhook" cb secret))
  = (type_name T =? type_name T').
Proof. reflexivity. Qed.

(** What a served turn for [T] achieves: one healthy subscription of type
    [T], the subscriptions of the other types untouched. *)
Lemma turn_registry_facts this L R T c p :
  NoDup (map sub_id L) ->
  known_or_new L R ->
  filter (has_type T) R = filter (has_type T) L ->
  length (filter (has_type T) L) <= 1 ->
  ~ In p (map sub_id L) ->
  let new := registered p
               (mkBody T "1" (resolve this c) "webhook" (callback this)
                  (webhookSecret this)) in
  let R1 := match existing_for T L with
            | Some e =>
                if healthy (sub_status e) then R
                else filter (fun s => negb (sub_id s =? sub_id e)) R ++ [new]
            | None => R ++ [new]
            end in
  known_or_new L R1 /\
  length (healthy_of T R1) = 1 /\
  (forall T', type_name T' <> type_name T ->
     filter (has_type T') R1 = filter (has_type T') R).
Proof.
  intros Hnd Hinv Hsame Hone Hp new R1.
  assert (Hnew_other : forall T', type_name T' <> type_name T ->
            filter (has_type T') [new] = []).
  { intros T' Hne. simpl. unfold new. rewrite registered_has_type.
    destruct (type_name T =? type_name T') eqn:E; [|reflexivity].
    apply String.eqb_eq in E. congruence. }
  assert (Hnew_self : filter (fun s => healthy (sub_status s))
                        (filter (has_type T) [new]) = [new]).
  { simpl. unfold new. rewrite registered_has_type, String.eqb_refl.
    reflexivity. }
  assert (Hnew_inv : known_or_new L [new]).
  { intros s [<-|[]]. right. exact Hp. }
  unfold existing_for in R1. subst R1.
  destruct (find (has_type T) L) as [e|] eqn:Ef.
  - destruct (find_filter_some _ _ _ Ef) as [tl Htl].
    rewrite Htl in Hone. destruct tl; [|simpl in Hone; lia].
    pose proof (find_some _ _ Ef) as [HeL HeT].
    destruct (healthy (sub_status e)) eqn:Eh.
    + split; [exact Hinv|]. split; [|reflexivity].
      rewrite healthy_of_filter, Hsame, Htl. simpl. rewrite Eh. reflexivity.
    + split; [|split].
      * intros s Hs. apply in_app_or in Hs. destruct Hs as [Hs|Hs].
        -- apply filter_In in Hs. apply Hinv. tauto.
        -- apply Hnew_inv, Hs.
      * rewrite healthy_of_filter, filter_app, filter_app, Hnew_self.
        rewrite (filter_swap (has_type T)), Hsame, Htl. simpl.
        rewrite String.eqb_refl. reflexivity.
      * intros T' Hne. rewrite filter_app, (Hnew_other T' Hne), app_nil_r.
        apply filter_absorb. intros s Hs Ht.
        destruct (sub_id s =? sub_id e) eqn:Eid; [|reflexivity].
        exfalso. apply String.eqb_eq in Eid.
        destruct (Hinv s Hs) as [HsL|Hfresh].
        -- assert (s = e) by (eapply NoDup_map_inj; eauto). subst s.
           unfold has_type in Ht, HeT.
           apply String.eqb_eq in Ht. apply String.eqb_eq in HeT. congruence.
        -- apply Hfresh. rewrite Eid. apply in_map, HeL.
  - pose proof (find_filter_none _ _ Ef) as Hnone.
    split; [|split].
    + intros s Hs. apply in_app_or in Hs. destruct Hs as [Hs|Hs].
      * apply Hinv, Hs.
      * apply Hnew_inv, Hs.
    + rewrite healthy_of_filter, filter_app, filter_app, Hnew_self.
      rewrite Hsame, Hnone. reflexivity.
    + intros T' Hne. rewrite filter_app, (Hnew_other T' Hne), app_nil_r.
      reflexivity.
Qed.

(** The served loop: every type of the list ends with exactly one healthy
    subscription, and the types outside the list are left as they were. *)
Lemma for_of_turn_served this token L l : forall w,
  serves L w ->
  NoDup (map sub_id L) ->
  NoDup (map (fun entry => type_name (fst entry)) l) ->
  known_or_new L (registry w) ->
  (forall entry, In entry l ->
     filter (has_type (fst entry)) (registry w)
     = filter (has_type (fst entry)) L) ->
  (forall entry, In entry l ->
     length (filter (has_type (fst entry)) L) <= 1) ->
  exists evs w',
    runs (for_of l (setupEventSub_turn this token (Some L))) w
      (Returned tt) evs w' /\
    known_or_new L (registry w') /\
    (forall entry, In entry l ->
       length (healthy_of (fst entry) (registry w')) = 1) /\
    (forall T,
       (forall entry, In entry l -> type_name (fst entry) <> type_name T) ->
       filter (has_type T) (registry w') = filter (has_type T) (registry w)).
Proof.
  induction l as [|entry l IH]; intros w Hs Hnd Hnames Hinv Hsame Hone.
  - exists [], w. split; [apply runs_ret|]. split; [exact Hinv|].
    split; [intros ? []|reflexivity].
  - destruct (setupEventSub_turn_served this token L entry w Hs)
      as (evs1 & w1 & p & Hrun1 & Hp & Hreg1).
    destruct entry as [T c]. simpl fst in *. simpl snd in *.
    inversion Hnames as [|x xs Hnotin Hnames']; subst.
    destruct (turn_registry_facts this L (registry w) T c p Hnd Hinv)
      as (Hinv1 & Hone1 & Hother1); auto.
    { apply (Hsame (T, c)). left. reflexivity. }
    { apply (Hone (T, c)). left. reflexivity. }
    simpl in Hreg1. rewrite <- Hreg1 in Hinv1, Hone1, Hother1.
    assert (Hdiff : forall entry, In entry l ->
              type_name (fst entry) <> type_name T).
    { intros en Hen Heq. apply Hnotin. simpl. rewrite <- Heq.
      apply (in_map (fun entry => type_name (fst entry))), Hen. }
    destruct (IH w1) as (evs2 & w2 & Hrun2 & Hinv2 & Hone2 & Hother2); auto.
    { intros h r. destruct Hrun1 as (_ & _ & -> & _). apply Hs. }
    { intros en Hen. rewrite Hother1; [|apply Hdiff, Hen].
      apply Hsame. right. exact Hen. }
    { intros en Hen. apply Hone. right. exact Hen. }
    exists (evs1 ++ evs2), w2. split; [|split; [exact Hinv2 | split]].
    + simpl. eapply runs_bind; eassumption.
    + intros en [<-|Hen]; [|apply Hone2, Hen]. simpl fst.
      rewrite healthy_of_filter, (Hother2 T Hdiff), <- healthy_of_filter.
      exact Hone1.
    + intros T' Hall. rewrite Hother2.
      * apply Hother1. intros Heq. apply (Hall (T, c)); [left; reflexivity|].
        symmetry. exact Heq.
      * intros en Hen. apply Hall. right. exact Hen.
Qed.

(** C1, as stated, fails: the registry may hold two healthy subscriptions
    of a desired type (raids to the channel and raids from it). The one
    listed first is found healthy, the turn is skipped, and after
    [setupEventSub] has completed, with every request served, there are
    still two. *)
Lemma two_raid_subscriptions_stay :
  In (channel_raid, Some [("to_broadcaster_user_id", "42")])
     (eventTypes controller) /\
  fst (setupEventSub controller (boot raids_both_ways obliging calm))
  = Returned tt /\
  length
    (healthy_of channel_raid
       (registry
          (snd (setupEventSub controller (boot raids_both_ways obliging calm)))))
  = 2.
Proof.
  split; [simpl; tauto|]. split; vm_compute; reflexivity.
Qed.

(** Convergence also needs the creates to succeed: a create that the
    platform refuses is not reported, [setupEventSub] completes, and the
    registry is as empty as before. *)
Lemma refused_creates_leave_registry_empty :
  fst (setupEventSub controller (boot [] stingy calm)) = Returned tt /\
  registry (snd (setupEventSub controller (boot [] stingy calm))) = [] /\
  registry_calls
    (events_of (setupEventSub controller) (boot [] stingy calm))
  = map (fun entry => CreateCall (fst entry) (resolve controller (snd entry)))
      (eventTypes controller).
Proof. repeat split; vm_compute; reflexivity. Qed.

(** C1, amended: starting from a registry whose ids are distinct and that
    holds at most one subscription of each desired type, when every
    request is served (a create with an id new to the registry),
    [setupEventSub] completes and the registry then holds exactly one
    subscription of type [T] with status enabled or pending verification,
    for every desired type [T]. *)
Theorem setupEventSub_converges this w T c :
  In (T, c) (eventTypes this) ->
  NoDup (map sub_id (registry w)) ->
  (forall entry, In entry (eventTypes this) ->
     length (filter (has_type (fst entry)) (registry w)) <= 1) ->
  all_served w ->
  fst (setupEventSub this w) = Returned tt /\
  length (healthy_of T (registry (snd (setupEventSub this w)))) = 1.
Proof.
  intros Hin Hnd Hone Hs. unfold all_served in Hs.
  destruct (getToken_runs this w) as (r1 & w1 & Hrun1 & Hreg1 & Hok1).
  destruct Hok1 as [token ->].
  { destruct (Hs (trace w)
                (ReqToken [("client_id", clientId this);
                           ("client_secret", clientSecret this);
                           ("grant_type", "client_credentials")]))
      as (p & -> & _). discriminate. }
  assert (Hnet1 : network w1 = network w)
    by (destruct Hrun1 as (_ & _ & Hn & _); exact Hn).
  destruct (listSubscriptions_runs token (clientId this) w1)
    as (r2 & w2 & Hrun2 & Hreg2 & _ & Hok2).
  rewrite Hok2 in Hrun2.
  2:{ destruct (Hs (trace w1) (ReqList token (clientId this))) as (p & Hp & _).
      exists p. rewrite Hnet1. exact Hp. }
  assert (Hnet2 : network w2 = network w)
    by (destruct Hrun2 as (_ & _ & Hn & _); congruence).
  rewrite Hreg1 in Hrun2.
  destruct (for_of_turn_served this token (registry w) (eventTypes this) w2)
    as (evs & w3 & Hrun3 & _ & Hone3 & _).
  - intros h r. rewrite Hnet2. apply Hs.
  - exact Hnd.
  - apply eventTypes_names_NoDup.
  - intros s Hsin. left. rewrite Hreg2, Hreg1 in Hsin. exact Hsin.
  - intros entry _. rewrite Hreg2, Hreg1. reflexivity.
  - exact Hone.
  - assert (Hrun : runs (setupEventSub this) w (Returned tt)
                     ([Fetch (ReqToken [("client_id", clientId this);
                                        ("client_secret", clientSecret this);
                                        ("grant_type", "client_credentials")])]
                      ++ [Fetch (ReqList token (clientId this))] ++ evs) w3).
    { unfold setupEventSub. eapply runs_bind; [exact Hrun1|].
      eapply runs_bind; [exact Hrun2 | exact Hrun3]. }
    apply runs_events in Hrun. destruct Hrun as (_ & -> & ->).
    split; [reflexivity|]. apply (Hone3 (T, c) Hin).
Qed.

Lemma setupEventSub_converges_witness :
  fst (setupEventSub controller (boot revoked_follow obliging calm))
  = Returned tt /\
  length
    (healthy_of channel_follow
       (registry
          (snd (setupEventSub controller (boot revoked_follow obliging calm)))))
  = 1.
Proof.
  apply (setupEventSub_converges controller
           (boot revoked_follow obliging calm) channel_follow None).
  - simpl. tauto.
  - simpl. repeat constructor; simpl; intuition discriminate.
  - intros entry Hin. simpl in Hin.
    repeat (destruct Hin as [<-|Hin]; [vm_compute; lia|]). contradiction.
  - intros h r. exists "fresh". split; [reflexivity|].
    simpl. intuition discriminate.
Defined.

(** ** Redemptions *)

Lemma events_of_nothing {A} (m : Async A) w r :
  m w = (r, w) -> events_of m w = [].
Proof.
  intros H. unfold events_of. rewrite H. simpl.
  rewrite <- (app_nil_r (trace w)) at 2. apply skipn_length_app.
Qed.

(** C5: a redemption whose reward id has no reward definition makes
    [redeem] return without a single effect: none of the three reward
    actions is performed and no scene switch is requested. *)
Theorem redeem_unknown_reward getReward payload w :
  getReward (reward_id (ev_reward (event payload))) = None ->
  fst (redeem getReward payload w) = Returned tt /\
  events_of (redeem getReward payload) w = [].
Proof.
  intros H.
  assert (E : redeem getReward payload w = (Returned tt, w))
    by (unfold redeem; rewrite H; reflexivity).
  split; [rewrite E; reflexivity | exact (events_of_nothing _ _ _ E)].
Qed.

Lemma redeem_unknown_reward_witness :
  fst (redeem rewards (redemption "no-such-reward" "viewer")
         (boot [] obliging calm)) = Returned tt /\
  events_of (redeem rewards (redemption "no-such-reward" "viewer"))
    (boot [] obliging calm) = [].
Proof.
  apply (redeem_unknown_reward rewards (redemption "no-such-reward" "viewer")
           (boot [] obliging calm)).
  reflexivity.
Defined.

(** C6, as stated, fails: the reward "raffle" is a giveaway entry declared
    with the scene [""]. The entrant is forwarded, but the empty string is
    falsy and no scene switch is requested. *)
Lemma empty_scene_is_not_switched :
  rewards "raffle" = Some (giveaway_entry (mkEntry "raffle" (Some ""))) /\
  redeem rewards (redemption "raffle" "viewer") (boot [] obliging calm)
  = (Returned tt, mkWorld [] [HandleNewEntry "viewer"] obliging calm).
Proof. split; reflexivity. Qed.

(** C6, amended: for a redemption whose reward is a giveaway entry with a
    declared, non-empty scene, and whose call of the giveaway collaborator
    returns, the effects of [redeem] are exactly the entry of the
    redeemer's user_name followed by the switch to the declared scene. *)
Theorem redeem_giveaway_entry_then_scene getReward payload w r s :
  getReward (reward_id (ev_reward (event payload))) = Some (giveaway_entry r) ->
  entry_scene r = Some s ->
  s <> "" ->
  throws w (trace w) (HandleNewEntry (ev_user_name (event payload))) = false ->
  events_of (redeem getReward payload) w
  = [HandleNewEntry (ev_user_name (event payload)); SwitchScene s].
Proof.
  intros Hr Hs Hne Hcalm.
  assert (Hrun : exists res w',
             runs (redeem getReward payload) w res
               ([HandleNewEntry (ev_user_name (event payload))]
                ++ [SwitchScene s]) w').
  { unfold redeem. rewrite Hr. simpl. rewrite Hs. simpl.
    apply String.eqb_neq in Hne. rewrite Hne.
    change [HandleNewEntry (ev_user_name (event payload)); SwitchScene s]
      with ([HandleNewEntry (ev_user_name (event payload))] ++ [SwitchScene s]).
    eexists _, _. eapply runs_bind.
    - unfold redeemGiveawayEntry.
      pose proof (runs_call (HandleNewEntry (ev_user_name (event payload))) w) as H.
      rewrite Hcalm in H. exact H.
    - apply runs_call. }
  destruct Hrun as (res & w' & Hrun). apply runs_events in Hrun.
  destruct Hrun as (-> & _). reflexivity.
Qed.

Lemma redeem_giveaway_entry_then_scene_witness :
  events_of (redeem rewards (redemption "giveaway" "viewer"))
    (boot [] obliging calm)
  = [HandleNewEntry "viewer"; SwitchScene "cam"].
Proof.
  apply (redeem_giveaway_entry_then_scene rewards
           (redemption "giveaway" "viewer") (boot [] obliging calm)
           (mkEntry "giveaway" (Some "cam")) "cam").
  - reflexivity.
  - reflexivity.
  - discriminate.
  - reflexivity.
Defined.

(** The two guarded actions never throw: a failure of the collaborator is
    caught and written to the console. *)
Lemma redeemShell_never_throws reward w :
  fst (redeemShell reward w) = Returned tt.
Proof.
  unfold redeemShell. destruct (truthy (script reward)) as [s|]; [|reflexivity].
  unfold try_catch, call, console_error.
  destruct (throws w (trace w) (Open s)); reflexivity.
Qed.

Lemma redeemSnapFilter_never_throws reward w :
  fst (redeemSnapFilter reward w) = Returned tt.
Proof.
  unfold redeemSnapFilter. destruct (truthy (key reward)) as [k|]; [|reflexivity].
  unfold try_catch, call, console_error.
  destruct (throws w (trace w) (ToggleSnapFilter k)); reflexivity.
Qed.

Lemma redeemShell_logs_failure reward s w :
  truthy (script reward) = Some s ->
  throws w (trace w) (Open s) = true ->
  events_of (redeemShell reward) w = [Open s; ConsoleError ActionError].
Proof.
  intros Hs Ht.
  assert (Hrun : exists w',
             runs (redeemShell reward) w (Returned tt)
               ([Open s] ++ [ConsoleError ActionError]) w').
  { unfold redeemShell. rewrite Hs. eexists. eapply runs_try_caught.
    - pose proof (runs_call (Open s) w) as H. rewrite Ht in H. exact H.
    - apply runs_console_error. }
  destruct Hrun as (w' & Hrun). apply runs_events in Hrun.
  destruct Hrun as (-> & _). reflexivity.
Qed.

Lemma redeemSnapFilter_logs_failure reward k w :
  truthy (key reward) = Some k ->
  throws w (trace w) (ToggleSnapFilter k) = true ->
  events_of (redeemSnapFilter reward) w
  = [ToggleSnapFilter k; ConsoleError ActionError].
Proof.
  intros Hk Ht.
  assert (Hrun : exists w',
             runs (redeemSnapFilter reward) w (Returned tt)
               ([ToggleSnapFilter k] ++ [ConsoleError ActionError]) w').
  { unfold redeemSnapFilter. rewrite Hk. eexists. eapply runs_try_caught.
    - pose proof (runs_call (ToggleSnapFilter k) w) as H. rewrite Ht in H.
      exact H.
    - apply runs_console_error. }
  destruct Hrun as (w' & Hrun). apply runs_events in Hrun.
  destruct Hrun as (-> & _). reflexivity.
Qed.

(** C7: the giveaway entry is the action without a guard. When
    [handleNewEntry] throws, nothing is written to the console, the error
    leaves [redeem] and [handleEvent], and the scene switch of the reward
    is skipped. *)
Lemma failed_giveaway_entry_propagates :
  handleEvent rewards (redemption_event (redemption "giveaway" "viewer"))
    (boot [] obliging broken)
  = (Thrown ActionError, mkWorld [] [HandleNewEntry "viewer"] obliging broken).
Proof. reflexivity. Qed.

(** ** Chat *)

Lemma runs_call_returns e w :
  throws w (trace w) e = false ->
  runs (call e) w (Returned tt) [e] (record e w).
Proof. intros H. pose proof (runs_call e w) as R. rewrite H in R. exact R. Qed.

Lemma runs_call_throws e w :
  throws w (trace w) e = true ->
  runs (call e) w (Thrown ActionError) [e] (record e w).
Proof. intros H. pose proof (runs_call e w) as R. rewrite H in R. exact R. Qed.

(** The effects of the handler: the winner selection when the message
    triggers it, then the forward, unless the selection threw. *)
Lemma onMessage_runs this channel user message msg w :
  exists r w',
    runs (onMessage this channel user message msg) w r
      (if prefix "!winner" message && (user =? username this)
       then SelectWinner ::
            if throws w (trace w) SelectWinner then []
            else [WsEmit "twitch-chat-event"
                    (mkChatEvent channel user message (isBroadcaster msg)
                       (isMod msg))]
       else [WsEmit "twitch-chat-event"
               (mkChatEvent channel user message (isBroadcaster msg)
                  (isMod msg))])
      w'.
Proof.
  unfold onMessage.
  destruct (prefix "!winner" message && (user =? username this)).
  - destruct (throws w (trace w) SelectWinner) eqn:Ht.
    + eexists _, _. apply runs_bind_thrown, runs_call_throws, Ht.
    + eexists _, _.
      change (SelectWinner ::
              [WsEmit "twitch-chat-event"
                 (mkChatEvent channel user message (isBroadcaster msg)
                    (isMod msg))])
        with ([SelectWinner] ++
              [WsEmit "twitch-chat-event"
                 (mkChatEvent channel user message (isBroadcaster msg)
                    (isMod msg))]).
      eapply runs_bind; [apply runs_call_returns, Ht | apply runs_call].
  - eexists _, _.
    change [WsEmit "twitch-chat-event"
              (mkChatEvent channel user message (isBroadcaster msg)
                 (isMod msg))]
      with ([] ++
            [WsEmit "twitch-chat-event"
               (mkChatEvent channel user message (isBroadcaster msg)
                  (isMod msg))]).
    eapply runs_bind; [apply runs_ret | apply runs_call].
Qed.

(** C8: the chat handler triggers the selection of a winner if and only if
    the message starts with "!winner" and its sender is the configured
    username; the same message from anyone else does not. *)
Theorem onMessage_selects_winner_iff this channel user message msg w :
  In SelectWinner (events_of (onMessage this channel user message msg) w)
  <-> prefix "!winner" message = true /\ user = username this.
Proof.
  destruct (onMessage_runs this channel user message msg w) as (r & w' & Hrun).
  apply runs_events in Hrun. destruct Hrun as (-> & _).
  rewrite <- String.eqb_eq, <- andb_true_iff.
  destruct (prefix "!winner" message && (user =? username this)); simpl.
  - split; auto.
  - split; [intros [H|[]]; discriminate H | discriminate].
Qed.

(** C10, as stated, fails: the winner selection is not guarded, so when
    [selectWinner] throws on the owner's "!winner", the handler ends there
    and the message is never forwarded. *)
Lemma throwing_selectWinner_suppresses_forward :
  onMessage controller "#streamer" "streamer" "!winner"
    (mkPrivateMessage true false) (boot [] obliging broken)
  = (Thrown ActionError, mkWorld [] [SelectWinner] obliging broken).
Proof. reflexivity. Qed.

(** C10, amended: every chat message whose winner selection, when the
    message triggers one, returns is forwarded exactly once to the
    websocket hub as a twitch-chat-event carrying channel, user, message
    and the broadcaster and moderator flags of the sender, as the last
    thing the handler does: the privileged branch has no early exit. *)
Theorem onMessage_forwards_unless_winner_throws this channel user message msg w :
  (prefix "!winner" message = true -> user = username this ->
   throws w (trace w) SelectWinner = false) ->
  filter is_emit (events_of (onMessage this channel user message msg) w)
  = [WsEmit "twitch-chat-event"
       (mkChatEvent channel user message (isBroadcaster msg) (isMod msg))] /\
  last (events_of (onMessage this channel user message msg) w) SelectWinner
  = WsEmit "twitch-chat-event"
      (mkChatEvent channel user message (isBroadcaster msg) (isMod msg)).
Proof.
  intros Hcalm.
  destruct (onMessage_runs this channel user message msg w) as (r & w' & Hrun).
  apply runs_events in Hrun. destruct Hrun as (-> & _).
  destruct (prefix "!winner" message) eqn:Hp; simpl; [|split; reflexivity].
  destruct (String.eqb_spec user (username this)) as [Hu|_];
    [|split; reflexivity].
  rewrite (Hcalm eq_refl Hu). split; reflexivity.
Qed.

Lemma onMessage_forwards_unless_winner_throws_witness :
  filter is_emit
    (events_of (onMessage controller "#streamer" "streamer" "!winner"
                  (mkPrivateMessage true false))
       (boot [] obliging calm))
  = [WsEmit "twitch-chat-event"
       (mkChatEvent "#streamer" "streamer" "!winner" true false)] /\
  last
    (events_of (onMessage controller "#streamer" "streamer" "!winner"
                  (mkPrivateMessage true false))
       (boot [] obliging calm)) SelectWinner
  = WsEmit "twitch-chat-event"
      (mkChatEvent "#streamer" "streamer" "!winner" true false).
Proof.
  apply (onMessage_forwards_unless_winner_throws controller "#streamer"
           "streamer" "!winner" (mkPrivateMessage true false)
           (boot [] obliging calm)).
  intros _ _. reflexivity.
Defined.

(** ** The registry helpers on their own *)

Ltac settle_events :=
  unfold events_of; simpl;
  rewrite <- ?app_assoc; rewrite ?skipn_length_app, ?skipn_all;
  try reflexivity.

(** X1: [createSubscription] never throws. It sends one POST; when the
    fetch is rejected it writes the error to the console, once, and
    returns undefined; in every other case it returns the parsed answer
    and writes nothing. *)
Theorem createSubscription_swallows_rejection token cid T cond cb secret w :
  let req := ReqCreate token cid (mkBody T "1" cond "webhook" cb secret) in
  exists o,
    fst (createSubscription token cid T cond cb secret w) = Returned o /\
    events_of (createSubscription token cid T cond cb secret) w
    = Fetch req ::
      match o with
      | Some _ => []
      | None => [ConsoleError FetchError]
      end /\
    (o = None <-> network w (trace w) req = NetworkError).
Proof.
  intros req. unfold createSubscription, try_catch, bind, fetch, ret,
    console_error, events_of. fold req.
  destruct (network w (trace w) req) as [| |p] eqn:E.
  - exists None. simpl. rewrite <- app_assoc, skipn_length_app. tauto.
  - eexists (Some _). simpl. rewrite skipn_length_app.
    repeat split; discriminate.
  - eexists (Some _). simpl. rewrite skipn_length_app.
    repeat split; discriminate.
Qed.

(** X2: [deleteSubscription] sends exactly one DELETE, carrying the id of
    the subscription it is given. It throws exactly when the fetch is
    rejected. The answer is not inspected: an error status is neither
    thrown nor written to the console, and leaves the registry as it is. *)
Theorem deleteSubscription_sends_one_delete e token cid w :
  let req := ReqDelete (sub_id e) token cid in
  events_of (deleteSubscription e token cid) w = [Fetch req] /\
  (fst (deleteSubscription e token cid w) = Thrown FetchError
   <-> network w (trace w) req = NetworkError) /\
  (network w (trace w) req = HttpError ->
   (exists j, fst (deleteSubscription e token cid w) = Returned j) /\
   registry (snd (deleteSubscription e token cid w)) = registry w).
Proof.
  intros req. unfold deleteSubscription, bind, fetch, ret, events_of. fold req.
  destruct (network w (trace w) req) as [| |p] eqn:E; simpl;
    rewrite skipn_length_app; repeat split; try discriminate; eauto.
Qed.

(** ** Reconciliation under any platform *)

Lemma registry_calls_in_plan this w c :
  In c (registry_calls (events_of (setupEventSub this) w)) ->
  exists entry,
    In entry (eventTypes this) /\ In c (plan this (registry w) entry).
Proof.
  intros Hin.
  destruct (setupEventSub_runs this w) as (r & evs & w' & rest & Hrun & Hplan & _).
  apply runs_events in Hrun. destruct Hrun as (He & _ & _).
  rewrite He in Hin.
  assert (H : In c (flat_map (plan this (registry w)) (eventTypes this)))
    by (rewrite Hplan; apply in_or_app; left; exact Hin).
  apply in_flat_map in H. exact H.
Qed.

(** X3: whatever the platform answers, [setupEventSub] only deletes the
    first listed subscription of a desired type, and only when its status
    is neither enabled nor pending verification. *)
Theorem setupEventSub_deletes_only_unhealthy this w id :
  In (DeleteCall id) (registry_calls (events_of (setupEventSub this) w)) ->
  exists entry e,
    In entry (eventTypes this) /\
    existing_for (fst entry) (registry w) = Some e /\
    healthy (sub_status e) = false /\
    sub_id e = id.
Proof.
  intros Hin. apply registry_calls_in_plan in Hin.
  destruct Hin as (entry & Hentry & Hplan). unfold plan in Hplan.
  destruct (existing_for (fst entry) (registry w)) as [e|] eqn:He.
  - destruct (healthy (sub_status e)) eqn:Hh; [contradiction|].
    destruct Hplan as [H|[H|[]]]; [|discriminate H].
    injection H as H. exists entry, e. auto.
  - destruct Hplan as [H|[]]. discriminate H.
Qed.

Lemma setupEventSub_deletes_only_unhealthy_witness :
  exists entry e,
    In entry (eventTypes controller) /\
    existing_for (fst entry) shadowed = Some e /\
    healthy (sub_status e) = false /\
    sub_id e = "0".
Proof.
  apply (setupEventSub_deletes_only_unhealthy controller
           (boot shadowed obliging calm) "0").
  vm_compute. left. reflexivity.
Defined.

(** X4: whatever the platform answers, [setupEventSub] only creates
    subscriptions of the desired types, each with the condition of its
    entry (the override when there is one, the broadcaster filter
    otherwise), and only for a type whose first listed subscription is
    missing or unhealthy. *)
Theorem setupEventSub_creates_only_desired this w T c :
  In (CreateCall T c) (registry_calls (events_of (setupEventSub this) w)) ->
  exists condition,
    In (T, condition) (eventTypes this) /\
    c = resolve this condition /\
    (existing_for T (registry w) = None \/
     exists e, existing_for T (registry w) = Some e /\
               healthy (sub_status e) = false).
Proof.
  intros Hin. apply registry_calls_in_plan in Hin.
  destruct Hin as ([T0 c0] & Hentry & Hplan). unfold plan in Hplan.
  simpl fst in Hplan; simpl snd in Hplan.
  destruct (existing_for T0 (registry w)) as [e|] eqn:He.
  - destruct (healthy (sub_status e)) eqn:Hh; [contradiction|].
    destruct Hplan as [H|[H|[]]]; [discriminate H|].
    injection H as <- <-. exists c0. rewrite He. eauto 6.
  - destruct Hplan as [H|[]]. injection H as <- <-.
    exists c0. rewrite He. auto.
Qed.

Lemma setupEventSub_creates_only_desired_witness :
  exists condition,
    In (channel_follow, condition) (eventTypes controller) /\
    broadcaster = resolve controller condition /\
    (existing_for channel_follow shadowed = None \/
     exists e, existing_for channel_follow shadowed = Some e /\
               healthy (sub_status e) = false).
Proof.
  apply (setupEventSub_creates_only_desired controller
           (boot shadowed obliging calm) channel_follow broadcaster).
  vm_compute. right. left. reflexivity.
Defined.

Lemma created_app a b : created (a ++ b) = created a ++ created b.
Proof.
  induction a as [|[id|T c] a IH]; simpl; rewrite ?IH; reflexivity.
Qed.

Lemma created_plan_incl this L entry T :
  In T (created (plan this L entry)) -> T = fst entry.
Proof.
  unfold plan. destruct (existing_for (fst entry) L) as [e|].
  - destruct (healthy (sub_status e)); simpl; intuition.
  - simpl. intuition.
Qed.

Lemma created_plan_NoDup this L l :
  NoDup (map (fun entry => type_name (fst entry)) l) ->
  NoDup (created (flat_map (plan this L) l)).
Proof.
  induction l as [|entry l IH]; simpl; intros Hnd; [constructor|].
  inversion Hnd as [|x xs Hnotin Hnd']; subst.
  rewrite created_app.
  assert (Hhead : created (plan this L entry) = []
                  \/ created (plan this L entry) = [fst entry]).
  { unfold plan. destruct (existing_for (fst entry) L) as [e|];
      [destruct (healthy (sub_status e))|]; simpl; auto. }
  destruct Hhead as [-> | ->]; simpl; [apply IH, Hnd'|].
  constructor; [|apply IH, Hnd'].
  intros Hin. apply Hnotin.
  assert (H : exists en, In en l /\ fst entry = fst en).
  { clear - Hin. induction l as [|en l IH]; simpl in Hin; [contradiction|].
    rewrite created_app in Hin. apply in_app_or in Hin.
    destruct Hin as [Hin|Hin].
    - exists en. split; [left; reflexivity|].
      apply (created_plan_incl this L en), Hin.
    - destruct (IH Hin) as (en' & Hen' & Heq). exists en'. split; auto.
      right. exact Hen'. }
  destruct H as (en & Hen & ->).
  apply (in_map (fun entry => type_name (fst entry))), Hen.
Qed.

(** X5: whatever the platform answers, no type is created twice in a run
    of [setupEventSub]: the types of its creates are pairwise distinct. *)
Theorem setupEventSub_creates_each_type_once this w :
  NoDup (created (registry_calls (events_of (setupEventSub this) w))).
Proof.
  destruct (setupEventSub_runs this w) as (r & evs & w' & rest & Hrun & Hplan & _).
  apply runs_events in Hrun. destruct Hrun as (-> & _ & _).
  pose proof (created_plan_NoDup this (registry w) (eventTypes this)
                (eventTypes_names_NoDup this)) as H.
  rewrite Hplan, created_app in H. apply NoDup_app_remove_r in H. exact H.
Qed.

Lemma plan_create_follows_delete this L l : forall pre T c post e,
  flat_map (plan this L) l = pre ++ CreateCall T c :: post ->
  existing_for T L = Some e ->
  exists pre', pre = pre' ++ [DeleteCall (sub_id e)].
Proof.
  induction l as [|[T0 c0] l IH]; intros pre T c post e Heq He.
  - destruct pre; discriminate Heq.
  - simpl in Heq. unfold plan in Heq at 1. simpl fst in Heq; simpl snd in Heq.
    destruct (existing_for T0 L) as [e0|] eqn:He0.
    + destruct (healthy (sub_status e0)).
      * simpl in Heq. eapply IH; eassumption.
      * destruct pre as [|x pre]; [discriminate Heq|].
        simpl in Heq. injection Heq as Hx Heq. subst x.
        destruct pre as [|y pre].
        -- simpl in Heq. injection Heq as HT _ _. subst T0.
           exists []. simpl. congruence.
        -- simpl in Heq. injection Heq as Hy Heq. subst y.
           destruct (IH _ _ _ _ _ Heq He) as [pre' ->].
           exists (DeleteCall (sub_id e0) :: CreateCall T0 (resolve this c0) :: pre').
           reflexivity.
    + destruct pre as [|x pre].
      * simpl in Heq. injection Heq as HT _ _. subst T0. congruence.
      * simpl in Heq. injection Heq as Hx Heq. subst x.
        destruct (IH _ _ _ _ _ Heq He) as [pre' ->].
        exists (CreateCall T0 (resolve this c0) :: pre'). reflexivity.
Qed.

(** X6: whatever the platform answers, when [setupEventSub] creates a
    subscription of a type that has a listed subscription, the call just
    before the create is the delete of that subscription: a type is never
    created while its old subscription has not been asked away. *)
Theorem setupEventSub_deletes_right_before_creating this w pre T c post e :
  registry_calls (events_of (setupEventSub this) w)
  = pre ++ CreateCall T c :: post ->
  existing_for T (registry w) = Some e ->
  exists pre', pre = pre' ++ [DeleteCall (sub_id e)].
Proof.
  intros Hcalls He.
  destruct (setupEventSub_runs this w) as (r & evs & w' & rest & Hrun & Hplan & _).
  apply runs_events in Hrun. destruct Hrun as (Hev & _ & _).
  rewrite Hev in Hcalls. rewrite Hcalls, <- app_assoc in Hplan.
  apply (plan_create_follows_delete this (registry w) (eventTypes this)
           pre T c (post ++ rest) e Hplan He).
Qed.

Lemma setupEventSub_deletes_right_before_creating_witness :
  exists pre', [DeleteCall "0"] = pre' ++ [DeleteCall "0"].
Proof.
  apply (setupEventSub_deletes_right_before_creating controller
           (boot shadowed obliging calm) [DeleteCall "0"] channel_follow
           broadcaster []
           (listed "0" authorization_revoked channel_follow broadcaster));
    reflexivity.
Defined.

(** ** The requests of a run *)

Lemma setupEventSub_turn_sent this token subscriptions entry w :
  exists r evs w',
    runs (setupEventSub_turn this token subscriptions entry) w r evs w' /\
    Forall (sent_with token (clientId this)) evs.
Proof.
  destruct entry as [T c]. unfold setupEventSub_turn, array_find.
  destruct subscriptions as [L|].
  2:{ eexists _, _, _. split; [apply runs_bind_thrown, runs_throw|constructor]. }
  destruct (find (fun sub => sub_type sub =? type_name T) L) as [e|] eqn:Ef.
  - destruct (healthy (sub_status e)) eqn:Eh.
    + eexists _, _, _. split.
      * eapply runs_bind; [apply runs_ret|]. simpl. rewrite Eh. apply runs_ret.
      * constructor.
    + destruct (network w (trace w) (ReqDelete (sub_id e) token (clientId this)))
        as [| |p] eqn:En.
      * eexists _, _, _. split.
        -- eapply runs_bind; [apply runs_ret|]. simpl. rewrite Eh.
           apply runs_bind_thrown, runs_bind_thrown.
           apply deleteSubscription_rejected, En.
        -- repeat constructor.
      * destruct (deleteSubscription_delivered e token (clientId this) w)
          as (j & w1 & Hd & _); [congruence|].
        destruct (createSubscription_runs token (clientId this) T
                    (resolve this c) (callback this) (webhookSecret this) w1)
          as (o & evs & w2 & Hc & Hevs & _).
        eexists _, _, _. split.
        -- eapply runs_bind; [apply runs_ret|]. simpl. rewrite Eh.
           eapply runs_bind.
           ++ eapply runs_bind; [exact Hd | apply runs_ret].
           ++ eapply runs_bind; [exact Hc | apply runs_ret].
        -- subst evs. simpl. repeat constructor.
           destruct (network w1 (trace w1) _); repeat constructor.
      * destruct (deleteSubscription_delivered e token (clientId this) w)
          as (j & w1 & Hd & _); [congruence|].
        destruct (createSubscription_runs token (clientId this) T
                    (resolve this c) (callback this) (webhookSecret this) w1)
          as (o & evs & w2 & Hc & Hevs & _).
        eexists _, _, _. split.
        -- eapply runs_bind; [apply runs_ret|]. simpl. rewrite Eh.
           eapply runs_bind.
           ++ eapply runs_bind; [exact Hd | apply runs_ret].
           ++ eapply runs_bind; [exact Hc | apply runs_ret].
        -- subst evs. simpl. repeat constructor.
           destruct (network w1 (trace w1) _); repeat constructor.
  - destruct (createSubscription_runs token (clientId this) T
                (resolve this c) (callback this) (webhookSecret this) w)
      as (o & evs & w2 & Hc & Hevs & _).
    eexists _, _, _. split.
    + eapply runs_bind; [apply runs_ret|]. simpl.
      eapply runs_bind; [apply runs_ret|].
      eapply runs_bind; [exact Hc | apply runs_ret].
    + subst evs. simpl. repeat constructor.
      destruct (network w (trace w) _); repeat constructor.
Qed.

Lemma for_of_turn_sent this token subscriptions l : forall w,
  exists r evs w',
    runs (for_of l (setupEventSub_turn this token subscriptions)) w r evs w' /\
    Forall (sent_with token (clientId this)) evs.
Proof.
  induction l as [|entry l IH]; intros w.
  - exists (Returned tt), [], w. split; [apply runs_ret | constructor].
  - destruct (setupEventSub_turn_sent this token subscriptions entry w)
      as ([[]|e] & evs1 & w1 & Hrun1 & Hall1).
    + destruct (IH w1) as (r & evs2 & w2 & Hrun2 & Hall2).
      exists r, (evs1 ++ evs2), w2. split.
      * simpl. eapply runs_bind; eassumption.
      * apply Forall_app. split; assumption.
    + exists (Thrown e), evs1, w1. split; [|exact Hall1].
      simpl. apply runs_bind_thrown. exact Hrun1.
Qed.

(** X7: [setupEventSub] asks for one token and uses it throughout. Its
    first request is the token request; unless that fetch is rejected, the
    second is the listing; and every request after the first carries the
    token of the answer and the configured client id. The answer is not
    checked: when it has no access_token (an error body), the run goes on
    with the token undefined. *)
Theorem setupEventSub_uses_one_token this w :
  let ask := ReqToken [("client_id", clientId this);
                       ("client_secret", clientSecret this);
                       ("grant_type", "client_credentials")] in
  let token := match network w (trace w) ask with
               | Success p => Some p
               | _ => None
               end in
  exists rest,
    events_of (setupEventSub this) w = Fetch ask :: rest /\
    Forall (sent_with token (clientId this)) rest /\
    (network w (trace w) ask = NetworkError -> rest = []) /\
    (network w (trace w) ask <> NetworkError ->
     exists rest', rest = Fetch (ReqList token (clientId this)) :: rest').
Proof.
  intros ask token. unfold setupEventSub.
  assert (Htok : exists r1 w1,
            runs (getToken this) w r1 [Fetch ask] w1 /\
            (network w (trace w) ask = NetworkError -> r1 = Thrown FetchError) /\
            (network w (trace w) ask <> NetworkError -> r1 = Returned token)).
  { unfold getToken. fold ask. subst token.
    destruct (network w (trace w) ask) as [| |p] eqn:E.
    - eexists _, _. split; [|split; [reflexivity | congruence]].
      apply runs_bind_thrown, runs_fetch_rejected, E.
    - eexists _, _. split; [|split; [discriminate | reflexivity]].
      rewrite <- (app_nil_r [Fetch _]).
      eapply runs_bind; [apply runs_fetch_refused, E | apply runs_ret].
    - eexists _, _. split; [|split; [discriminate | reflexivity]].
      rewrite <- (app_nil_r [Fetch _]).
      eapply runs_bind; [apply runs_fetch_served, E | apply runs_ret]. }
  destruct Htok as (r1 & w1 & Hrun1 & Hrej & Hok).
  destruct (network w (trace w) ask) as [| |p] eqn:E.
  - rewrite Hrej in Hrun1 by reflexivity.
    exists []. split; [|split; [constructor | split; [reflexivity | congruence]]].
    eapply runs_events, runs_bind_thrown, Hrun1.
  - rewrite Hok in Hrun1 by discriminate.
    destruct (listSubscriptions_runs token (clientId this) w1)
      as (r2 & w2 & Hrun2 & _).
    destruct r2 as [subs|e].
    + destruct (for_of_turn_sent this token subs (eventTypes this) w2)
        as (r3 & evs & w3 & Hrun3 & Hall).
      exists (Fetch (ReqList token (clientId this)) :: evs).
      split; [|split; [|split; [discriminate | eauto]]].
      * eapply runs_events.
        change (Fetch ask :: Fetch (ReqList token (clientId this)) :: evs)
          with ([Fetch ask] ++ [Fetch (ReqList token (clientId this))] ++ evs).
        eapply runs_bind; [exact Hrun1|].
        eapply runs_bind; [exact Hrun2 | exact Hrun3].
      * constructor; [split; reflexivity | exact Hall].
    + exists [Fetch (ReqList token (clientId this))].
      split; [|split; [|split; [discriminate | eauto]]].
      * eapply runs_events.
        change [Fetch ask; Fetch (ReqList token (clientId this))]
          with ([Fetch ask] ++ [Fetch (ReqList token (clientId this))]).
        eapply runs_bind; [exact Hrun1|].
        apply runs_bind_thrown. exact Hrun2.
      * repeat constructor.
  - rewrite Hok in Hrun1 by discriminate.
    destruct (listSubscriptions_runs token (clientId this) w1)
      as (r2 & w2 & Hrun2 & _).
    destruct r2 as [subs|e].
    + destruct (for_of_turn_sent this token subs (eventTypes this) w2)
        as (r3 & evs & w3 & Hrun3 & Hall).
      exists (Fetch (ReqList token (clientId this)) :: evs).
      split; [|split; [|split; [discriminate | eauto]]].
      * eapply runs_events.
        change (Fetch ask :: Fetch (ReqList token (clientId this)) :: evs)
          with ([Fetch ask] ++ [Fetch (ReqList token (clientId this))] ++ evs).
        eapply runs_bind; [exact Hrun1|].
        eapply runs_bind; [exact Hrun2 | exact Hrun3].
      * constructor; [split; reflexivity | exact Hall].
    + exists [Fetch (ReqList token (clientId this))].
      split; [|split; [|split; [discriminate | eauto]]].
      * eapply runs_events.
        change [Fetch ask; Fetch (ReqList token (clientId this))]
          with ([Fetch ask] ++ [Fetch (ReqList token (clientId this))]).
        eapply runs_bind; [exact Hrun1|].
        apply runs_bind_thrown. exact Hrun2.
      * repeat constructor.
Qed.

Lemma getToken_outcome this w :
  let ask := ReqToken [("client_id", clientId this);
                       ("client_secret", clientSecret this);
                       ("grant_type", "client_credentials")] in
  exists w1,
    runs (getToken this) w
      match network w (trace w) ask with
      | NetworkError => Thrown FetchError
      | HttpError => Returned None
      | Success p => Returned (Some p)
      end [Fetch ask] w1 /\
    registry w1 = registry w.
Proof.
  intros ask. unfold getToken. fold ask.
  destruct (network w (trace w) ask) as [| |p] eqn:E.
  - eexists. split;
      [apply runs_bind_thrown, runs_fetch_rejected, E | reflexivity].
  - eexists. split;
      [rewrite <- (app_nil_r [Fetch _]);
       eapply runs_bind; [apply runs_fetch_refused, E | apply runs_ret]
      | reflexivity].
  - eexists. split;
      [rewrite <- (app_nil_r [Fetch _]);
       eapply runs_bind; [apply runs_fetch_served, E | apply runs_ret]
      | reflexivity].
Qed.

Lemma listSubscriptions_outcome token cid w :
  exists w1,
    runs (listSubscriptions token cid) w
      match network w (trace w) (ReqList token cid) with
      | NetworkError => Thrown FetchError
      | HttpError => Returned None
      | Success _ => Returned (Some (registry w))
      end [Fetch (ReqList token cid)] w1 /\
    registry w1 = registry w.
Proof.
  unfold listSubscriptions.
  destruct (network w (trace w) (ReqList token cid)) as [| |p] eqn:E.
  - eexists. split;
      [apply runs_bind_thrown, runs_fetch_rejected, E | reflexivity].
  - eexists. split;
      [rewrite <- (app_nil_r [Fetch _]);
       eapply runs_bind; [apply runs_fetch_refused, E | apply runs_ret]
      | reflexivity].
  - eexists. split;
      [rewrite <- (app_nil_r [Fetch _]);
       eapply runs_bind; [apply runs_fetch_served, E | apply runs_ret]
      | reflexivity].
Qed.

(** X8: without the listing nothing is touched. When the token request is
    rejected, or the listing request does not succeed (it is rejected, or
    answered with an error body that has no data), [setupEventSub] throws
    before any delete or create, and the registry is as it was. *)
Theorem setupEventSub_needs_the_listing this w :
  (network w (trace w)
     (ReqToken [("client_id", clientId this);
                ("client_secret", clientSecret this);
                ("grant_type", "client_credentials")]) = NetworkError \/
   forall h token cid p, network w h (ReqList token cid) <> Success p) ->
  (exists e, fst (setupEventSub this w) = Thrown e) /\
  registry_calls (events_of (setupEventSub this) w) = [] /\
  registry (snd (setupEventSub this w)) = registry w.
Proof.
  intros H. unfold setupEventSub.
  destruct (getToken_outcome this w) as (w1 & Hrun1 & Hreg1).
  cbv zeta in Hrun1.
  destruct (network w (trace w) _) as [| |p] eqn:E.
  - apply (runs_bind_thrown _
             (fun token =>
                subscriptions <- listSubscriptions token (clientId this) ;;
                for_of (eventTypes this)
                  (setupEventSub_turn this token subscriptions))) in Hrun1.
    apply runs_events in Hrun1. destruct Hrun1 as (-> & -> & ->).
    split; [eauto|]. split; [reflexivity | exact Hreg1].
  - destruct H as [H|H]; [discriminate H|].
    assert (Hnet : network w1 = network w)
      by (destruct Hrun1 as (_ & _ & Hn & _); exact Hn).
    destruct (listSubscriptions_outcome None (clientId this) w1)
      as (w2 & Hrun2 & Hreg2).
    destruct (network w1 (trace w1) (ReqList None (clientId this)))
      as [| |q] eqn:E2.
    + assert (Hrun : runs
                (token <- getToken this ;;
                 subscriptions <- listSubscriptions token (clientId this) ;;
                 for_of (eventTypes this)
                   (setupEventSub_turn this token subscriptions))
                w (Thrown FetchError)
                ([Fetch (ReqToken [("client_id", clientId this);
                                   ("client_secret", clientSecret this);
                                   ("grant_type", "client_credentials")])]
                 ++ [Fetch (ReqList None (clientId this))]) w2).
      { eapply runs_bind; [exact Hrun1|]. apply runs_bind_thrown, Hrun2. }
      apply runs_events in Hrun. destruct Hrun as (-> & -> & ->).
      split; [eauto|]. split; [reflexivity | congruence].
    + assert (Hrun : runs
                (token <- getToken this ;;
                 subscriptions <- listSubscriptions token (clientId this) ;;
                 for_of (eventTypes this)
                   (setupEventSub_turn this token subscriptions))
                w (Thrown TypeError)
                ([Fetch (ReqToken [("client_id", clientId this);
                                   ("client_secret", clientSecret this);
                                   ("grant_type", "client_credentials")])]
                 ++ [Fetch (ReqList None (clientId this))] ++ []) w2).
      { eapply runs_bind; [exact Hrun1|]. eapply runs_bind; [exact Hrun2|].
        apply for_of_turn_undefined. }
      apply runs_events in Hrun. destruct Hrun as (-> & -> & ->).
      split; [eauto|]. split; [reflexivity | congruence].
    + exfalso. rewrite Hnet in E2. exact (H _ _ _ _ E2).
  - destruct H as [H|H]; [discriminate H|].
    assert (Hnet : network w1 = network w)
      by (destruct Hrun1 as (_ & _ & Hn & _); exact Hn).
    destruct (listSubscriptions_outcome (Some p) (clientId this) w1)
      as (w2 & Hrun2 & Hreg2).
    destruct (network w1 (trace w1) (ReqList (Some p) (clientId this)))
      as [| |q] eqn:E2.
    + assert (Hrun : runs
                (token <- getToken this ;;
                 subscriptions <- listSubscriptions token (clientId this) ;;
                 for_of (eventTypes this)
                   (setupEventSub_turn this token subscriptions))
                w (Thrown FetchError)
                ([Fetch (ReqToken [("client_id", clientId this);
                                   ("client_secret", clientSecret this);
                                   ("grant_type", "client_credentials")])]
                 ++ [Fetch (ReqList (Some p) (clientId this))]) w2).
      { eapply runs_bind; [exact Hrun1|]. apply runs_bind_thrown, Hrun2. }
      apply runs_events in Hrun. destruct Hrun as (-> & -> & ->).
      split; [eauto|]. split; [reflexivity | congruence].
    + assert (Hrun : runs
                (token <- getToken this ;;
                 subscriptions <- listSubscriptions token (clientId this) ;;
                 for_of (eventTypes this)
                   (setupEventSub_turn this token subscriptions))
                w (Thrown TypeError)
                ([Fetch (ReqToken [("client_id", clientId this);
                                   ("client_secret", clientSecret this);
                                   ("grant_type", "client_credentials")])]
                 ++ [Fetch (ReqList (Some p) (clientId this))] ++ []) w2).
      { eapply runs_bind; [exact Hrun1|]. eapply runs_bind; [exact Hrun2|].
        apply for_of_turn_undefined. }
      apply runs_events in Hrun. destruct Hrun as (-> & -> & ->).
      split; [eauto|]. split; [reflexivity | congruence].
    + exfalso. rewrite Hnet in E2. exact (H _ _ _ _ E2).
Qed.

Lemma setupEventSub_needs_the_listing_witness :
  (exists e, fst (setupEventSub controller (boot shadowed unlisted calm))
             = Thrown e) /\
  registry_calls
    (events_of (setupEventSub controller) (boot shadowed unlisted calm)) = [] /\
  registry (snd (setupEventSub controller (boot shadowed unlisted calm)))
  = shadowed.
Proof.
  apply (setupEventSub_needs_the_listing controller
           (boot shadowed unlisted calm)).
  right. intros h token cid p. simpl. discriminate.
Defined.

(** ** A second run *)

Lemma filter_head_find {A} (p : A -> bool) l s tl :
  filter p l = s :: tl -> find p l = Some s.
Proof.
  induction l as [|x l IH]; simpl; [discriminate|].
  destruct (p x); [intros [= -> _]; reflexivity | exact IH].
Qed.

(** After a served turn for [T] the registry holds a single subscription
    of type [T], and it is healthy. *)
Lemma turn_registry_single this L R T c p :
  filter (has_type T) R = filter (has_type T) L ->
  length (filter (has_type T) L) <= 1 ->
  let new := registered p
               (mkBody T "1" (resolve this c) "webhook" (callback this)
                  (webhookSecret this)) in
  let R1 := match existing_for T L with
            | Some e =>
                if healthy (sub_status e) then R
                else filter (fun s => negb (sub_id s =? sub_id e)) R ++ [new]
            | None => R ++ [new]
            end in
  exists s, filter (has_type T) R1 = [s] /\ healthy (sub_status s) = true.
Proof.
  intros Hsame Hone new R1.
  assert (Hnew : filter (has_type T) [new] = [new]).
  { simpl. unfold new. rewrite registered_has_type, String.eqb_refl.
    reflexivity. }
  unfold existing_for in R1. subst R1.
  destruct (find (has_type T) L) as [e|] eqn:Ef.
  - destruct (find_filter_some _ _ _ Ef) as [tl Htl].
    rewrite Htl in Hone. destruct tl; [|simpl in Hone; lia].
    destruct (healthy (sub_status e)) eqn:Eh.
    + exists e. rewrite Hsame, Htl. auto.
    + exists new. split; [|reflexivity].
      rewrite filter_app, Hnew, (filter_swap (has_type T)), Hsame, Htl.
      simpl. rewrite String.eqb_refl. reflexivity.
  - exists new. split; [|reflexivity].
    rewrite filter_app, Hnew, Hsame, (find_filter_none _ _ Ef). reflexivity.
Qed.

Lemma for_of_turn_settled this token L l : forall w,
  serves L w ->
  NoDup (map sub_id L) ->
  NoDup (map (fun entry => type_name (fst entry)) l) ->
  known_or_new L (registry w) ->
  (forall entry, In entry l ->
     filter (has_type (fst entry)) (registry w)
     = filter (has_type (fst entry)) L) ->
  (forall entry, In entry l ->
     length (filter (has_type (fst entry)) L) <= 1) ->
  exists evs w',
    runs (for_of l (setupEventSub_turn this token (Some L))) w
      (Returned tt) evs w' /\
    (forall entry, In entry l ->
       exists s, filter (has_type (fst entry)) (registry w') = [s] /\
                 healthy (sub_status s) = true) /\
    (forall T,
       (forall entry, In entry l -> type_name (fst entry) <> type_name T) ->
       filter (has_type T) (registry w') = filter (has_type T) (registry w)).
Proof.
  induction l as [|entry l IH]; intros w Hs Hnd Hnames Hinv Hsame Hone.
  - exists [], w. split; [apply runs_ret|].
    split; [intros ? []|reflexivity].
  - destruct (setupEventSub_turn_served this token L entry w Hs)
      as (evs1 & w1 & p & Hrun1 & Hp & Hreg1).
    destruct entry as [T c]. simpl fst in *. simpl snd in *.
    inversion Hnames as [|x xs Hnotin Hnames']; subst.
    assert (HsameT : filter (has_type T) (registry w) = filter (has_type T) L)
      by (apply (Hsame (T, c)); left; reflexivity).
    assert (HoneT : length (filter (has_type T) L) <= 1)
      by (apply (Hone (T, c)); left; reflexivity).
    destruct (turn_registry_facts this L (registry w) T c p Hnd Hinv HsameT HoneT Hp)
      as (Hinv1 & _ & Hother1).
    destruct (turn_registry_single this L (registry w) T c p HsameT HoneT)
      as (s & Hsingle & Hhealthy).
    simpl in Hreg1. rewrite <- Hreg1 in Hinv1, Hother1, Hsingle.
    assert (Hdiff : forall entry, In entry l ->
              type_name (fst entry) <> type_name T).
    { intros en Hen Heq. apply Hnotin. simpl. rewrite <- Heq.
      apply (in_map (fun entry => type_name (fst entry))), Hen. }
    destruct (IH w1) as (evs2 & w2 & Hrun2 & Hsingle2 & Hother2); auto.
    { intros h r. destruct Hrun1 as (_ & _ & -> & _). apply Hs. }
    { intros en Hen. rewrite Hother1; [|apply Hdiff, Hen].
      apply Hsame. right. exact Hen. }
    { intros en Hen. apply Hone. right. exact Hen. }
    exists (evs1 ++ evs2), w2. split; [|split].
    + simpl. eapply runs_bind; eassumption.
    + intros en [<-|Hen]; [|apply Hsingle2, Hen]. simpl fst.
      exists s. rewrite (Hother2 T Hdiff). auto.
    + intros T' Hall. rewrite Hother2.
      * apply Hother1. intros Heq. apply (Hall (T, c)); [left; reflexivity|].
        symmetry. exact Heq.
      * intros en Hen. apply Hall. right. exact Hen.
Qed.

(** A served run from a registry with distinct ids and at most one
    subscription per desired type. *)
Lemma setupEventSub_served_run this w :
  NoDup (map sub_id (registry w)) ->
  (forall entry, In entry (eventTypes this) ->
     length (filter (has_type (fst entry)) (registry w)) <= 1) ->
  all_served w ->
  fst (setupEventSub this w) = Returned tt /\
  forall entry, In entry (eventTypes this) ->
    exists s,
      filter (has_type (fst entry)) (registry (snd (setupEventSub this w)))
      = [s] /\
      healthy (sub_status s) = true.
Proof.
  intros Hnd Hone Hs. unfold all_served in Hs.
  destruct (getToken_runs this w) as (r1 & w1 & Hrun1 & Hreg1 & Hok1).
  destruct Hok1 as [token ->].
  { destruct (Hs (trace w)
                (ReqToken [("client_id", clientId this);
                           ("client_secret", clientSecret this);
                           ("grant_type", "client_credentials")]))
      as (p & -> & _). discriminate. }
  assert (Hnet1 : network w1 = network w)
    by (destruct Hrun1 as (_ & _ & Hn & _); exact Hn).
  destruct (listSubscriptions_runs token (clientId this) w1)
    as (r2 & w2 & Hrun2 & Hreg2 & _ & Hok2).
  rewrite Hok2 in Hrun2.
  2:{ destruct (Hs (trace w1) (ReqList token (clientId this))) as (p & Hp & _).
      exists p. rewrite Hnet1. exact Hp. }
  assert (Hnet2 : network w2 = network w)
    by (destruct Hrun2 as (_ & _ & Hn & _); congruence).
  rewrite Hreg1 in Hrun2.
  destruct (for_of_turn_settled this token (registry w) (eventTypes this) w2)
    as (evs & w3 & Hrun3 & Hsingle & _).
  - intros h r. rewrite Hnet2. apply Hs.
  - exact Hnd.
  - apply eventTypes_names_NoDup.
  - intros s Hsin. left. rewrite Hreg2, Hreg1 in Hsin. exact Hsin.
  - intros entry _. rewrite Hreg2, Hreg1. reflexivity.
  - exact Hone.
  - assert (Hrun : runs (setupEventSub this) w (Returned tt)
                     ([Fetch (ReqToken [("client_id", clientId this);
                                        ("client_secret", clientSecret this);
                                        ("grant_type", "client_credentials")])]
                      ++ [Fetch (ReqList token (clientId this))] ++ evs) w3).
    { unfold setupEventSub. eapply runs_bind; [exact Hrun1|].
      eapply runs_bind; [exact Hrun2 | exact Hrun3]. }
    apply runs_events in Hrun. destruct Hrun as (_ & -> & ->).
    split; [reflexivity | exact Hsingle].
Qed.

(** X9: reconciliation is idempotent. After a run of [setupEventSub] in
    which every request was served, from a registry with distinct ids and
    at most one subscription of each desired type, a second run on the
    registry reached issues no delete and no create, whatever the platform
    answers then: the second run may start in any world that holds that
    registry. *)
Theorem setupEventSub_second_run_is_noop this w again :
  NoDup (map sub_id (registry w)) ->
  (forall entry, In entry (eventTypes this) ->
     length (filter (has_type (fst entry)) (registry w)) <= 1) ->
  all_served w ->
  registry again = registry (snd (setupEventSub this w)) ->
  registry_calls (events_of (setupEventSub this) again) = [].
Proof.
  intros Hnd Hone Hs Hreg.
  destruct (setupEventSub_served_run this w Hnd Hone Hs) as [_ Hsingle].
  destruct (setupEventSub_runs this again)
    as (r & evs & w' & rest & Hrun & Hplan & _).
  apply runs_events in Hrun. destruct Hrun as (-> & _ & _).
  rewrite plan_healthy in Hplan.
  - symmetry in Hplan. apply app_eq_nil in Hplan. tauto.
  - intros entry Hin. destruct (Hsingle entry Hin) as (s & Hf & Hh).
    exists s. split; [|exact Hh]. unfold existing_for. rewrite Hreg.
    eapply filter_head_find. exact Hf.
Qed.

Lemma setupEventSub_second_run_is_noop_witness :
  registry_calls
    (events_of (setupEventSub controller)
       (boot
          (registry
             (snd (setupEventSub controller
                     (boot revoked_follow obliging calm))))
          lossy broken))
  = [].
Proof.
  apply (setupEventSub_second_run_is_noop controller
           (boot revoked_follow obliging calm)).
  - simpl. repeat constructor; simpl; intuition discriminate.
  - intros entry Hin. simpl in Hin.
    repeat (destruct Hin as [<-|Hin]; [vm_compute; lia|]). contradiction.
  - intros h r. exists "fresh". split; [reflexivity|].
    simpl. intuition discriminate.
  - reflexivity.
Defined.

(** X10: a served run leaves no unhealthy subscription of a desired type
    behind. From a registry with distinct ids and at most one subscription
    of each desired type, when every request is served, every subscription
    of a desired type in the registry reached is enabled or pending
    verification. *)
Theorem setupEventSub_leaves_no_unhealthy this w entry s :
  NoDup (map sub_id (registry w)) ->
  (forall entry, In entry (eventTypes this) ->
     length (filter (has_type (fst entry)) (registry w)) <= 1) ->
  all_served w ->
  In entry (eventTypes this) ->
  In s (registry (snd (setupEventSub this w))) ->
  has_type (fst entry) s = true ->
  healthy (sub_status s) = true.
Proof.
  intros Hnd Hone Hs Hentry Hin Ht.
  destruct (setupEventSub_served_run this w Hnd Hone Hs) as [_ Hsingle].
  destruct (Hsingle entry Hentry) as (s0 & Hf & Hh).
  assert (H : In s (filter (has_type (fst entry))
                      (registry (snd (setupEventSub this w)))))
    by (apply filter_In; auto).
  rewrite Hf in H. destruct H as [<-|[]]. exact Hh.
Qed.

Lemma setupEventSub_leaves_no_unhealthy_witness :
  healthy
    (sub_status
       (registered "fresh"
          (mkBody channel_follow "1" broadcaster "webhook"
             "https://overlays.example/api/twitch" "webhook-secret")))
  = true.
Proof.
  apply (setupEventSub_leaves_no_unhealthy controller
           (boot revoked_follow obliging calm) (channel_follow, None)).
  - simpl. repeat constructor; simpl; intuition discriminate.
  - intros entry Hin. simpl in Hin.
    repeat (destruct Hin as [<-|Hin]; [vm_compute; lia|]). contradiction.
  - intros h r. exists "fresh". split; [reflexivity|].
    simpl. intuition discriminate.
  - simpl. tauto.
  - vm_compute. left. reflexivity.
  - reflexivity.
Defined.

(** ** The dispatcher under any collaborators *)

Ltac split_throws :=
  repeat match goal with
         | |- context [throws ?w ?h ?e] => destruct (throws w h e) eqn:?
         end.

Ltac split_truthy :=
  repeat match goal with
         | |- context [truthy ?o] => destruct (truthy o) eqn:?
         end.

Ltac crunch_redeem :=
  unfold handleEvent, redeem, redeemShell, redeemSnapFilter,
    redeemGiveawayEntry, try_catch, bind, call, console_error, ret, throw,
    events_of, selected_action;
  simpl.

Ltac settle_trace :=
  simpl; rewrite <- ?app_assoc; rewrite ?skipn_length_app, ?skipn_all; simpl.

(** X11: [redeemShell] never throws. Without a script (undefined or the
    empty string) it does nothing; with one it launches it once, and a
    launch that throws is written to the console and goes no further. *)
Theorem redeemShell_guards_its_action reward w :
  fst (redeemShell reward w) = Returned tt /\
  events_of (redeemShell reward) w
  = match truthy (script reward) with
    | None => []
    | Some s =>
        Open s ::
        if throws w (trace w) (Open s) then [ConsoleError ActionError] else []
    end.
Proof.
  crunch_redeem. split_truthy; split_throws; settle_trace; auto.
Qed.

(** X12: [redeemSnapFilter] never throws. Without a key (undefined or the
    empty string) it does nothing; with one it toggles the filter once,
    and a toggle that throws is written to the console and goes no
    further. *)
Theorem redeemSnapFilter_guards_its_action reward w :
  fst (redeemSnapFilter reward w) = Returned tt /\
  events_of (redeemSnapFilter reward) w
  = match truthy (key reward) with
    | None => []
    | Some k =>
        ToggleSnapFilter k ::
        if throws w (trace w) (ToggleSnapFilter k)
        then [ConsoleError ActionError] else []
    end.
Proof.
  crunch_redeem. split_truthy; split_throws; settle_trace; auto.
Qed.

(** X13: the three reward actions exclude each other. Whatever the
    collaborators do, the reward actions [redeem] performs are exactly the
    one selected by the reward's type: the script launch for a shell
    reward with a script, the filter toggle for a snap-filter reward with
    a key, the giveaway entry of the redeemer for a giveaway-entry
    reward, and none otherwise. *)
Theorem redeem_performs_the_selected_action getReward payload w :
  filter is_action (events_of (redeem getReward payload) w)
  = selected_action (getReward (reward_id (ev_reward (event payload))))
      (ev_user_name (event payload)).
Proof.
  crunch_redeem.
  destruct (getReward (reward_id (ev_reward (event payload)))) as [[r|r|r]|];
    simpl; split_truthy; simpl; split_throws; settle_trace; reflexivity.
Qed.

(** X14: a failing script or filter does not cost the scene switch. For a
    shell or snap-filter reward with a non-empty scene, [redeem] requests
    the switch to that scene exactly once, as its last effect, whether the
    reward action was skipped, succeeded or threw. *)
Theorem redeem_switches_scene_after_guarded_action getReward payload w r s :
  getReward (reward_id (ev_reward (event payload))) = Some r ->
  (forall g, r <> giveaway_entry g) ->
  truthy (scene r) = Some s ->
  filter is_scene_switch (events_of (redeem getReward payload) w)
  = [SwitchScene s] /\
  last (events_of (redeem getReward payload) w) SelectWinner = SwitchScene s.
Proof.
  intros Hr Hg Hs. crunch_redeem. rewrite Hr.
  destruct r as [r|r|r]; [| |exfalso; exact (Hg r eq_refl)];
    simpl in Hs |- *; rewrite Hs; split_truthy; simpl; split_throws;
    settle_trace; split; reflexivity.
Qed.

Lemma redeem_switches_scene_after_guarded_action_witness :
  filter is_scene_switch
    (events_of (redeem rewards (redemption "googly-eyes" "viewer"))
       (boot [] obliging flaky_actions))
  = [SwitchScene "cam"] /\
  last (events_of (redeem rewards (redemption "googly-eyes" "viewer"))
          (boot [] obliging flaky_actions)) SelectWinner
  = SwitchScene "cam".
Proof.
  apply (redeem_switches_scene_after_guarded_action rewards
           (redemption "googly-eyes" "viewer") (boot [] obliging flaky_actions)
           (snap_filter (mkSnap "googly-eyes" (Some "cam") (Some "g"))) "cam").
  - reflexivity.
  - intros g H. discriminate H.
  - reflexivity.
Defined.

(** X15: no scene, no switch. When the reward is unknown, or declares no
    scene, or declares the empty string, [redeem] requests no scene
    switch, whatever the reward's type and whatever the collaborators
    do. *)
Theorem redeem_without_scene_never_switches getReward payload w :
  truthy match getReward (reward_id (ev_reward (event payload))) with
         | Some r => scene r
         | None => None
         end = None ->
  filter is_scene_switch (events_of (redeem getReward payload) w) = [].
Proof.
  intros Hs. crunch_redeem. rewrite Hs.
  destruct (getReward (reward_id (ev_reward (event payload)))) as [[r|r|r]|];
    simpl; split_truthy; simpl; split_throws; settle_trace; reflexivity.
Qed.

Lemma redeem_without_scene_never_switches_witness :
  filter is_scene_switch
    (events_of (redeem rewards (redemption "hydrate" "viewer"))
       (boot [] obliging calm))
  = [].
Proof.
  apply (redeem_without_scene_never_switches rewards
           (redemption "hydrate" "viewer") (boot [] obliging calm)).
  reflexivity.
Defined.

(** X16: only the giveaway entry and the scene switch can make [redeem]
    throw. When [handleNewEntry] and [switchScene] return, [redeem]
    returns, even if the script launch or the filter toggle throws. *)
Theorem redeem_returns_when_unguarded_calls_return getReward payload w :
  (forall h n, throws w h (HandleNewEntry n) = false) ->
  (forall h s, throws w h (SwitchScene s) = false) ->
  fst (redeem getReward payload w) = Returned tt.
Proof.
  intros Hentry Hscene. crunch_redeem.
  destruct (getReward (reward_id (ev_reward (event payload)))) as [[r|r|r]|];
    simpl; split_truthy;
    repeat (repeat (progress (unfold record; simpl; rewrite ?Hentry, ?Hscene));
            match goal with
            | |- context [throws ?w ?h ?e] => destruct (throws w h e) eqn:?
            end);
    repeat (progress (unfold record; simpl; rewrite ?Hentry, ?Hscene));
    reflexivity.
Qed.

Lemma redeem_returns_when_unguarded_calls_return_witness :
  fst (redeem rewards (redemption "googly-eyes" "viewer")
         (boot [] obliging flaky_actions))
  = Returned tt.
Proof.
  apply (redeem_returns_when_unguarded_calls_return rewards
           (redemption "googly-eyes" "viewer") (boot [] obliging flaky_actions));
    reflexivity.
Defined.

(** X17: [handleEvent] never talks to the platform. For every event and
    whatever the collaborators do, it sends no request and leaves the
    subscription registry as it is. *)
Theorem handleEvent_never_fetches getReward ev w :
  filter is_fetch (events_of (handleEvent getReward ev) w) = [] /\
  registry (snd (handleEvent getReward ev w)) = registry w.
Proof.
  crunch_redeem.
  destruct (subscription_type (subscription ev)), ev as [e|b];
    simpl; rewrite ?skipn_all; auto.
  destruct (getReward (reward_id (ev_reward (event e)))) as [[r|r|r]|];
    simpl; split_truthy; simpl; split_throws; settle_trace; auto.
Qed.

(** X18: [handleEvent] acts on redemptions only. An event of any other
    subscription type is accepted and ignored: the handler returns with
    no effect at all. *)
Theorem handleEvent_ignores_other_types getReward ev w :
  subscription_type (subscription ev)
  <> channel_channel_points_custom_reward_redemption_add ->
  handleEvent getReward ev w = (Returned tt, w).
Proof.
  intros H. unfold handleEvent.
  destruct (subscription_type (subscription ev)); try reflexivity.
  exfalso. apply H. reflexivity.
Qed.

Lemma handleEvent_ignores_other_types_witness :
  handleEvent rewards follow_event (boot [] obliging broken)
  = (Returned tt, boot [] obliging broken).
Proof.
  apply (handleEvent_ignores_other_types rewards follow_event
           (boot [] obliging broken)).
  discriminate.
Defined.

(** X19: the winner command is matched by prefix and runs before the
    forward. For any message of the configured user that starts with
    "!winner", whatever follows, the handler first calls the winner
    selection; the message is forwarded after it, and only if the
    selection returned. *)
Theorem onMessage_winner_then_forward this channel rest msg w :
  events_of (onMessage this channel (username this) ("!winner" ++ rest)%string msg) w
  = SelectWinner ::
    if throws w (trace w) SelectWinner then []
    else [ WsEmit "twitch-chat-event"
             (mkChatEvent channel (username this) ("!winner" ++ rest)%string
                (isBroadcaster msg) (isMod msg)) ].
Proof.
  destruct (onMessage_runs this channel (username this)
              ("!winner" ++ rest)%string msg w) as (r & w' & Hrun).
  apply runs_events in Hrun. destruct Hrun as (-> & _).
  rewrite String.eqb_refl, andb_true_r.
  assert (H : prefix "!winner" ("!winner" ++ rest)%string = true).
  { simpl. repeat (destruct (Ascii.ascii_dec _ _) as [_|n];
                   [|exfalso; apply n; reflexivity]).
    destruct rest; reflexivity. }
  rewrite H. reflexivity.
Qed.

(** ** The body of the token request *)

Lemma hex_digit_unreserved n : unreserved (hex_digit n) = true.
Proof.
  do 16 (destruct n as [|n]; [reflexivity|]).
  unfold hex_digit. simpl. destruct n; reflexivity.
Qed.

Lemma occurrences_app c a b :
  occurrences c (a ++ b)%string = occurrences c a + occurrences c b.
Proof.
  induction a as [|d a IH]; simpl; [reflexivity|]. rewrite IH. lia.
Qed.

Lemma encode_escapes c s :
  unreserved c = false ->
  c <> "%"%char ->
  occurrences c (encodeURIComponent s) = 0.
Proof.
  intros Hc Hp. induction s as [|d s IH]; [reflexivity|].
  cbn [encodeURIComponent]. destruct (unreserved d) eqn:Hd; cbn [occurrences].
  - destruct (Ascii.eqb_spec c d) as [->|_]; [congruence | exact IH].
  - destruct (Ascii.eqb_spec c "%"%char) as [->|_]; [congruence|].
    destruct (Ascii.eqb_spec c (hex_digit (nat_of_ascii d / 16))) as [->|_];
      [rewrite hex_digit_unreserved in Hc; discriminate|].
    destruct (Ascii.eqb_spec c (hex_digit (nat_of_ascii d mod 16))) as [->|_];
      [rewrite hex_digit_unreserved in Hc; discriminate|].
    exact IH.
Qed.

(** X20: [encodeURIComponent] leaves no delimiter behind. A character that
    is neither unreserved nor the percent sign, such as [&], [=], [+], [/]
    or a space, never occurs in an encoded component, whatever the
    component. *)
Theorem encodeURIComponent_escapes c s :
  unreserved c = false ->
  c <> "%"%char ->
  occurrences c (encodeURIComponent s) = 0.
Proof.
  intros Hc Hp. induction s as [|d s IH]; [reflexivity|].
  cbn [encodeURIComponent]. destruct (unreserved d) eqn:Hd; cbn [occurrences].
  - destruct (Ascii.eqb_spec c d) as [->|_]; [congruence | exact IH].
  - destruct (Ascii.eqb_spec c "%"%char) as [->|_]; [congruence|].
    destruct (Ascii.eqb_spec c (hex_digit (nat_of_ascii d / 16))) as [->|_];
      [rewrite hex_digit_unreserved in Hc; discriminate|].
    destruct (Ascii.eqb_spec c (hex_digit (nat_of_ascii d mod 16))) as [->|_];
      [rewrite hex_digit_unreserved in Hc; discriminate|].
    exact IH.
Qed.

Lemma encodeURIComponent_escapes_witness :
  occurrences "&" (encodeURIComponent "s3cr&t=1") = 0.
Proof.
  apply (encodeURIComponent_escapes "&" "s3cr&t=1").
  - reflexivity.
  - discriminate.
Defined.

Lemma encode_no_ampersand s : occurrences "&" (encodeURIComponent s) = 0.
Proof. apply encode_escapes; [reflexivity | discriminate]. Qed.

Lemma encode_no_equals s : occurrences "=" (encodeURIComponent s) = 0.
Proof. apply encode_escapes; [reflexivity | discriminate]. Qed.

Lemma form_body_delimiters params :
  occurrences "&" (form_body params) = pred (length params) /\
  occurrences "=" (form_body params) = length params.
Proof.
  unfold form_body, formBody.
  induction params as [|[k v] params IH]; [split; reflexivity|].
  destruct IH as [IHa IHe].
  destruct params as [|p params].
  - simpl. rewrite !occurrences_app. simpl.
    rewrite !encode_no_ampersand, !encode_no_equals. split; reflexivity.
  - change (String.concat "&"
              (map (fun property =>
                      (encodeURIComponent (fst property) ++ "="
                       ++ encodeURIComponent (snd property))%string)
                 ((k, v) :: p :: params)))
      with ((encodeURIComponent k ++ "=" ++ encodeURIComponent v)
            ++ "&"
            ++ String.concat "&"
                 (map (fun property =>
                         (encodeURIComponent (fst property) ++ "="
                          ++ encodeURIComponent (snd property))%string)
                    (p :: params)))%string.
    rewrite !occurrences_app, IHa, IHe. simpl.
    rewrite !encode_no_ampersand, !encode_no_equals. split; reflexivity.
Qed.

(** X21: the token request cannot be tampered with through the
    credentials. Whatever the client id and the client secret contain, the
    body [getToken] posts is client_id, client_secret and grant_type, in
    that order, with the encoded credentials as values, and it holds
    exactly two [&] and three [=]: it splits into exactly these three
    fields. *)
Theorem getToken_body_has_three_fields this :
  getToken_body this
  = ("client_id=" ++ encodeURIComponent (clientId this)
     ++ "&client_secret=" ++ encodeURIComponent (clientSecret this)
     ++ "&grant_type=client_credentials")%string /\
  occurrences "&" (getToken_body this) = 2 /\
  occurrences "=" (getToken_body this) = 3.
Proof.
  split.
  - reflexivity.
  - apply (form_body_delimiters
             [ ("client_id", clientId this);
               ("client_secret", clientSecret this);
               ("grant_type", "client_credentials") ]).
Qed.

(** ** The chat bot *)

(** X22: without readable token data there is no chat bot. When
    ./tokens.json is missing or does not parse, [setupChatBot] throws
    before a client is made: the field [chatClient] keeps its value, no
    connection is tried, no listener is registered and nothing is written
    to the console. *)
Theorem setupChatBot_needs_token_data D parse this connects
  (cw : ChatWorld D) :
  (tokens_json cw = None \/
   exists text, tokens_json cw = Some text /\ parse text = None) ->
  exists error, setupChatBot D parse this connects cw = (inl error, cw).
Proof.
  unfold setupChatBot, getAuthProvider.
  intros [H | (text & H & Hp)]; rewrite H; [eauto|]. rewrite Hp. eauto.
Qed.

Lemma setupChatBot_needs_token_data_witness :
  exists error,
    setupChatBot string parse_text controller true (mkChatWorld (Some "") [] None)
    = (inl error, mkChatWorld (Some "") [] None).
Proof.
  apply (setupChatBot_needs_token_data string parse_text controller true
           (mkChatWorld (Some "") [] None)).
  right. exists "". split; reflexivity.
Defined.

(** X23: the chat listener is registered even when the connection fails.
    With token data on file, [setupChatBot] returns and leaves a client
    for the one channel of the configured username, authenticated with the
    data read, with the chat handler as its listener. A failed connect is
    written to the console, once, and changes nothing else; the token
    file is not touched. *)
Theorem setupChatBot_always_listens D parse this connects
  (cw : ChatWorld D) text tokens :
  tokens_json cw = Some text ->
  parse text = Some tokens ->
  setupChatBot D parse this connects cw
  = (inr tt,
     mkChatWorld (Some text)
       (console cw ++ if connects then [] else [ConnectError])
       (Some (mkChatClient
                (mkAuthProvider (clientId this) (clientSecret this) tokens)
                [username this] connects (Some (onMessage this))))).
Proof.
  intros Hfile Hparse. unfold setupChatBot, getAuthProvider.
  rewrite Hfile, Hparse. destruct connects; simpl.
  - rewrite app_nil_r. reflexivity.
  - reflexivity.
Qed.

Lemma setupChatBot_always_listens_witness :
  setupChatBot string parse_text controller false
    (mkChatWorld (Some "tokens") [] None)
  = (inr tt,
     mkChatWorld (Some "tokens") [ConnectError]
       (Some (mkChatClient (mkAuthProvider "client" "client-secret" "tokens")
                ["streamer"] false (Some (onMessage controller))))).
Proof.
  apply (setupChatBot_always_listens string parse_text controller false
           (mkChatWorld (Some "tokens") [] None) "tokens" "tokens");
    reflexivity.
Defined.

(** X24: a refreshed token survives a restart. After [onRefresh] has
    written new token data, whatever the file held before, and provided
    the data prints to text that parses back to it, [getAuthProvider]
    yields a provider carrying exactly the new data. *)
Theorem getAuthProvider_after_onRefresh D parse stringify this
  (cw : ChatWorld D) newTokenData :
  parse (stringify newTokenData) = Some newTokenData ->
  getAuthProvider D parse this (onRefresh D stringify newTokenData cw)
  = inr (mkAuthProvider (clientId this) (clientSecret this) newTokenData).
Proof.
  intros H. unfold getAuthProvider, onRefresh. simpl. rewrite H. reflexivity.
Qed.

Lemma getAuthProvider_after_onRefresh_witness :
  getAuthProvider string parse_text controller
    (onRefresh string print_text "new" (mkChatWorld None [] None))
  = inr (mkAuthProvider "client" "client-secret" "new").
Proof.
  apply (getAuthProvider_after_onRefresh string parse_text print_text
           controller (mkChatWorld None [] None) "new").
  reflexivity.
Defined.

(** ** The websocket route *)

(** X25: the route answers 400 exactly when the query has no [event] or
    an empty one, and then emits nothing. Otherwise it emits once, the
    value of [event] as the name and the whole query as the payload, and
    answers 200 when [emit] returns true and 500 when it returns false. A
    repeated [event] parameter, a list, passes the guard like a non-empty
    string. *)
Theorem handler_answers emit query :
  let outcome := handler emit query in
  ((query_get query "event" = None \/
    query_get query "event" = Some (single ""))
   <-> outcome = mkOutcome [] 400) /\
  (status outcome = 400%Z <-> emitted outcome = []) /\
  (forall name payload,
     In (name, payload) (emitted outcome) ->
     emitted outcome = [(name, query)] /\
     payload = query /\
     query_get query "event" = Some name /\
     name <> single "" /\
     status outcome = if emit name query then 200%Z else 500%Z).
Proof.
  unfold handler.
  destruct (query_get query "event") as [[s|l]|] eqn:E; simpl.
  - destruct (String.eqb_spec s "") as [->|Hs]; simpl.
    + split; [tauto|]. split; [tauto|]. intros ? ? [].
    + split; [|split].
      * split; [intros [H|H]; congruence | discriminate].
      * destruct (emit (single s) query); split; discriminate.
      * intros name payload [[= <- <-]|[]].
        repeat split; congruence.
  - split; [|split].
    + split; [intros [H|H]; discriminate H | discriminate].
    + destruct (emit (several l) query); split; discriminate.
    + intros name payload [[= <- <-]|[]].
      repeat split; congruence.
  - split; [tauto|]. split; [tauto|]. intros ? ? [].
Qed.

(** ** The now-playing route *)

Ltac split_reads H :=
  repeat match type of H with
         | context [match ?c with Returned _ => _ | Thrown _ => _ end] =>
             destruct c; try discriminate H
         end.

(** A body that is read is answered with status 200 and the track, or not
    at all. *)
Lemma now_playing_answer body status answer :
  now_playing body = Returned (status, answer) ->
  status = 200%Z /\ answer <> not_playing.
Proof.
  unfold now_playing, and_then. intros H. split_reads H.
  injection H as <- <-. split; [reflexivity | discriminate].
Qed.

(** X26: the route reports "not playing" without reading the body exactly
    for the status 204 and for every status above 400; the status 400
    itself is not among them. *)
Theorem spotify_idle_statuses response :
  spotify response = Returned (200%Z, not_playing)
  <-> (player_status response = 204%Z \/ (player_status response > 400)%Z).
Proof.
  unfold spotify.
  destruct (Z.eqb_spec (player_status response) 204) as [E|E];
    destruct (Z.gtb_spec (player_status response) 400) as [G|G]; simpl;
    try (split; [intros _ | reflexivity]; lia).
  split; [|lia].
  destruct (player_json response) as [song|]; [|discriminate].
  intros H. apply now_playing_answer in H. destruct H as [_ H].
  exfalso. apply H. reflexivity.
Qed.

(** X27: the route never passes a status on. Whenever it answers, it
    answers 200, whatever status the player returned. *)
Theorem spotify_answers_200 response status body :
  spotify response = Returned (status, body) ->
  status = 200%Z.
Proof.
  unfold spotify.
  destruct ((player_status response =? 204)%Z
            || (player_status response >? 400)%Z); [congruence|].
  destruct (player_json response) as [song|]; [|discriminate].
  intros H. apply now_playing_answer in H. tauto.
Qed.

Lemma spotify_answers_200_witness :
  spotify (mkPlayerResponse 503 None) = Returned (200%Z, not_playing) /\
  200%Z = 200%Z.
Proof.
  split; [reflexivity|].
  apply (spotify_answers_200 (mkPlayerResponse 503 None) 200%Z not_playing).
  reflexivity.
Defined.

Lemma get_error v k e : get v k = Thrown e -> e = TypeError.
Proof.
  destruct v as [[| | | | |members]|]; simpl; intros H;
    try discriminate H; congruence.
Qed.

Lemma names_of_error elements e :
  names_of elements = Thrown e -> e = TypeError.
Proof.
  induction elements as [|a l IH]; cbn [names_of]; [discriminate|].
  destruct (get (Some a) "name") eqn:Hg; cbn [and_then].
  - destruct (names_of l); cbn [and_then]; [discriminate|].
    intros [= <-]. apply IH. reflexivity.
  - intros [= <-]. eapply get_error. exact Hg.
Qed.

Lemma map_names_error artists e :
  map_names artists = Thrown e -> e = TypeError.
Proof.
  destruct artists as [[| | | |l|]|]; simpl; try congruence.
  apply names_of_error.
Qed.

(** X28: a body that is read must have a track with a cover. For a status
    that is not 204 and at most 400, the status 400 included, the route
    throws a TypeError whenever the body has no item (the body is not an
    object, or its item is missing or null), and whenever the album of
    the item has an empty list of images. *)
Theorem spotify_throws_without_cover response body :
  player_status response <> 204%Z ->
  (player_status response <= 400)%Z ->
  player_json response = Some body ->
  ((forall members,
      body = JObject members ->
      member members "item" = None \/ member members "item" = Some JNull) \/
   (exists members item item_album,
      body = JObject members /\
      member members "item" = Some (JObject item) /\
      member item "album" = Some (JObject item_album) /\
      member item_album "images" = Some (JArray []))) ->
  spotify response = Thrown TypeError.
Proof.
  intros H204 H400 Hbody Hshape. unfold spotify.
  destruct (Z.eqb_spec (player_status response) 204) as [E|_]; [contradiction|].
  destruct (Z.gtb_spec (player_status response) 400) as [G|_]; [lia|].
  simpl. rewrite Hbody. unfold now_playing.
  destruct Hshape as [Hnone | (members & item & item_album & -> & Hi & Ha & Him)].
  - destruct body as [| | | | |members]; try reflexivity.
    simpl. destruct (Hnone members eq_refl) as [-> | ->]; reflexivity.
  - simpl. rewrite Hi. simpl.
    destruct (map_names (member item "artists")) eqn:Hm.
    + simpl. rewrite Ha. simpl. rewrite Him. reflexivity.
    + apply map_names_error in Hm. subst. reflexivity.
Qed.

Lemma spotify_throws_without_cover_witness :
  spotify (mkPlayerResponse 400 (Some (a_song []))) = Thrown TypeError.
Proof.
  apply (spotify_throws_without_cover
           (mkPlayerResponse 400 (Some (a_song []))) (a_song [])).
  - simpl. discriminate.
  - simpl. lia.
  - reflexivity.
  - right. eexists _, _, _. repeat split; reflexivity.
Defined.
